(** * A shallow embedding of the Terabox relay bot ([bot.py]).

    Python strings are modelled as [list ascii] (the UTF-8 bytes of the
    text; emoji in dictionary keys and messages are kept as their bytes).
    JSON values decoded by [response.json()] are modelled by [json], Python
    [None] being [JNull].  Python exceptions are values of [exc]; a
    computation that may raise returns [res A]. *)

From Stdlib Require Import String Ascii List ZArith Bool Lia.
Import ListNotations.
Open Scope list_scope.
Set Warnings "-register-all".

Definition str := list ascii.

(** String literals of the source, converted to their bytes. *)
Definition L (s : string) : str := list_ascii_of_string s.

Definition nl : str := [ascii_of_nat 10].

Fixpoint str_eqb (a b : str) : bool :=
  match a, b with
  | [], [] => true
  | x :: a', y :: b' => Ascii.eqb x y && str_eqb a' b'
  | _, _ => false
  end.

(** [s.startswith(p)] *)
Fixpoint startswith (s p : str) {struct p} : bool :=
  match p with
  | [] => true
  | y :: p' =>
      match s with
      | [] => false
      | x :: s' => Ascii.eqb x y && startswith s' p'
      end
  end.

(** [needle in hay] for Python strings. *)
Fixpoint py_in (needle hay : str) : bool :=
  startswith hay needle ||
  match hay with
  | [] => false
  | _ :: hay' => py_in needle hay'
  end.

(** [str.lower()] on the ASCII letters. *)
Definition lower_char (c : ascii) : ascii :=
  let n := nat_of_ascii c in
  if (65 <=? n) && (n <=? 90) then ascii_of_nat (n + 32) else c.

Definition lower (s : str) : str := map lower_char s.

(** ** JSON values and Python exceptions *)

Inductive json : Type :=
| JNull
| JBool (b : bool)
| JNum (z : Z)
| JStr (s : str)
| JArr (l : list json)
| JObj (kvs : list (str * json)).

(** Python truthiness of a decoded JSON value. *)
Definition truthy (v : json) : bool :=
  match v with
  | JNull => false
  | JBool b => b
  | JNum z => negb (Z.eqb z 0)
  | JStr s => negb (Nat.eqb (length s) 0)
  | JArr l => negb (Nat.eqb (length l) 0)
  | JObj kvs => negb (Nat.eqb (length kvs) 0)
  end.

(** [v == 'lit'] *)
Definition py_eq_str (v : json) (lit : str) : bool :=
  match v with JStr s => str_eqb s lit | _ => false end.

(** The exception classes that the code can meet.  [ConnectionError],
    [Timeout], [TooManyRedirects] and [HTTPError] are
    [requests.exceptions.RequestException]s, [JSONDecodeError] is a
    [ValueError]; [TelegramError] is raised by the chat platform and
    [BadRequest] is werkzeug's 400 [HTTPException].  All of them derive
    from [Exception]. *)
Inductive exc : Type :=
| ConnectionError
| Timeout
| TooManyRedirects
| HTTPError (status : Z)
| JSONDecodeError
| ValueError (msg : str)
| AttributeError
| TypeError
| KeyError
| TelegramError (msg : str)
| BadRequest
| RuntimeError (msg : str).

Definition is_request_exception (e : exc) : bool :=
  match e with
  | ConnectionError | Timeout | TooManyRedirects | HTTPError _ => true
  | _ => false
  end.

Definition is_value_error (e : exc) : bool :=
  match e with JSONDecodeError | ValueError _ => true | _ => false end.

(** [str(e)] *)
Definition exc_str (e : exc) : str :=
  match e with
  | ValueError m | TelegramError m | RuntimeError m => m
  | HTTPError _ => L "HTTP Error"
  | JSONDecodeError => L "Expecting value"
  | _ => []
  end.

Inductive res (A : Type) : Type :=
| Ok (a : A)
| Raise (e : exc).
Arguments Ok {A} a.
Arguments Raise {A} e.

Definition rbind {A B} (m : res A) (k : A -> res B) : res B :=
  match m with Ok a => k a | Raise e => Raise e end.

Notation "x <- m ;; k" := (rbind m (fun x => k))
  (at level 61, m at next level, right associativity).

(** [try: m except ...: h e] *)
Definition rtry {A} (m : res A) (h : exc -> res A) : res A :=
  match m with Ok a => Ok a | Raise e => h e end.

(** [d.get(k, default)]: an [AttributeError] unless [d] is a dict. *)
Definition py_get_default (d : json) (k : str) (default : json) : res json :=
  match d with
  | JObj kvs =>
      match find (fun kv => str_eqb (fst kv) k) kvs with
      | Some (_, v) => Ok v
      | None => Ok default
      end
  | _ => Raise AttributeError
  end.

Definition py_get (d : json) (k : str) : res json := py_get_default d k JNull.

(** [for item in v]: lists give their items, strings their characters, dicts
    their keys; anything else is not iterable. *)
Definition py_iter (v : json) : res (list json) :=
  match v with
  | JArr l => Ok l
  | JStr s => Ok (map (fun c => JStr [c]) s)
  | JObj kvs => Ok (map (fun kv => JStr (fst kv)) kvs)
  | _ => Raise TypeError
  end.

(** [len(v)] *)
Definition py_len (v : json) : res nat :=
  match v with
  | JArr l => Ok (length l)
  | JStr s => Ok (length s)
  | JObj kvs => Ok (length kvs)
  | _ => Raise TypeError
  end.

(** [v[0]] (JSON object keys are strings, so [0] is never one). *)
Definition py_index0 (v : json) : res json :=
  match v with
  | JArr (x :: _) => Ok x
  | JStr (c :: _) => Ok (JStr [c])
  | JObj _ => Raise KeyError
  | JArr [] | JStr [] => Raise KeyError
  | _ => Raise TypeError
  end.

(** [a or b] *)
Definition py_or (a : json) (b : unit -> res json) : res json :=
  if truthy a then Ok a else b tt.

(** [s] as a Python [str]; calling a [str] method on anything else raises
    [AttributeError]. *)
Definition as_str (v : json) : res str :=
  match v with JStr s => Ok s | _ => Raise AttributeError end.

(** ** The provider clients *)

(** What [requests.get(api_url, timeout=15)] yields: it raises (connection
    failure, the 15 s timeout, too many redirects), or it returns a response
    with its final status and its body, [None] when the body is not JSON. *)
Inductive http_outcome : Type :=
| NetError (e : exc)
| Response (status : Z) (body : option json).

Definition requests_get (get : str -> http_outcome) (url : str)
  : res (Z * option json) :=
  match get url with
  | NetError e => Raise e
  | Response st b => Ok (st, b)
  end.

(** [response.raise_for_status()]: raises for 4xx and 5xx only. *)
Definition raise_for_status (st : Z) : res unit :=
  if (400 <=? st)%Z && (st <? 600)%Z then Raise (HTTPError st) else Ok tt.

(** [response.json()] *)
Definition response_json (b : option json) : res json :=
  match b with Some j => Ok j | None => Raise JSONDecodeError end.

(** The dict a client builds: keys ['title'], ['url'], ['size'],
    ['thumbnail']. *)
Record video_info : Type := {
  title : json;
  url : json;
  size : json;
  thumbnail : json
}.

Definition API_WORKER_1_BASE := L "https://tera.iqbalalam8675.workers.dev/".
Definition API_WORKER_2_BASE := L "https://teraboxapi.thory.workers.dev/api".
Definition API_WORKER_3_BASE := L "https://terabox-pro-api.vercel.app/api".

(** [f"{API_WORKER_1_BASE}?url={terabox_url}"] and its siblings. *)
Definition api1_url (terabox_url : str) := API_WORKER_1_BASE ++ L "?url=" ++ terabox_url.
Definition api2_url (terabox_url : str) :=
  API_WORKER_2_BASE ++ L "?key=free&url=" ++ terabox_url.
Definition api3_url (terabox_url : str) := API_WORKER_3_BASE ++ L "?link=" ++ terabox_url.

(** The three [except] clauses of every client: [RequestException],
    [ValueError] and [Exception] are all logged and turned into [None]. *)
Definition client_except (e : exc) : res (option video_info) :=
  if is_request_exception e then Ok None
  else if is_value_error e then Ok None
  else Ok None.

(** [for item in data['list']: if item.get('type') == 'video' and
    item.get('playUrl'): return {...}] *)
Fixpoint api1_scan (items : list json) : res (option video_info) :=
  match items with
  | [] => Ok None
  | item :: rest =>
      ty <- py_get item (L "type") ;;
      if py_eq_str ty (L "video") then
        pu <- py_get item (L "playUrl") ;;
        if truthy pu then
          t <- py_get_default item (L "name") (JStr (L "Video")) ;;
          u <- py_get item (L "playUrl") ;;
          sz <- py_get item (L "size") ;;
          th <- py_get item (L "image") ;;
          Ok (Some {| title := t; url := u; size := sz; thumbnail := th |})
        else api1_scan rest
      else api1_scan rest
  end.

(** The try-body of [fetch_from_api1] after [requests.get] and
    [raise_for_status]: from [data = response.json()] on. *)
Definition api1_body (body : option json) : res (option video_info) :=
  data <- response_json body ;;
  st <- py_get data (L "status") ;;
  if py_eq_str st (L "success") then
    lst <- py_get data (L "list") ;;
    if truthy lst then
      items <- py_iter lst ;;
      api1_scan items
    else Ok None
  else Ok None.

(** The [try:] / [except ...: return None] frame shared by the clients. *)
Definition client_frame (get : str -> http_outcome) (api_url : str)
  (parse : option json -> res (option video_info)) : res (option video_info) :=
  rtry
    (response <- requests_get get api_url ;;
     _ <- raise_for_status (fst response) ;;
     parse (snd response))
    client_except.

Definition fetch_from_api1 (get : str -> http_outcome) (terabox_url : str)
  : res (option video_info) :=
  let api_url := api1_url terabox_url in
  client_frame get api_url api1_body.

Definition api2_body (body : option json) : res (option video_info) :=
  data <- response_json body ;;
  st <- py_get data (L "status") ;;
  if py_eq_str st (L "success") then
    dl <- py_get data (L "download_link") ;;
    if truthy dl then
      t <- py_get_default data (L "file_name") (JStr (L "Video")) ;;
      sz <- py_get data (L "file_size") ;;
      th <- py_get data (L "thumbnail") ;;
      Ok (Some {| title := t; url := dl; size := sz; thumbnail := th |})
    else Ok None
  else Ok None.

Definition fetch_from_api2 (get : str -> http_outcome) (terabox_url : str)
  : res (option video_info) :=
  let api_url := api2_url terabox_url in
  client_frame get api_url api2_body.

Definition K_STATUS_OK := L "✅ Success".
Definition K_EXTRACTED := L "📋 Extracted Info".
Definition K_DIRECT := L "🔗 Direct Download Link".
Definition K_THUMBS := L "🖼️ Thumbnails".
Definition K_TITLE := L "📄 Title".
Definition K_SIZE := L "📦 Size".

(** [thumbnails.get("850x580") or thumbnails.get("360x270") or
    thumbnails.get("140x90") or thumbnails.get("60x60")] *)
Definition pick_thumbnail (thumbnails : json) : res json :=
  a <- py_get thumbnails (L "850x580") ;;
  py_or a (fun _ =>
  b <- py_get thumbnails (L "360x270") ;;
  py_or b (fun _ =>
  c <- py_get thumbnails (L "140x90") ;;
  py_or c (fun _ => py_get thumbnails (L "60x60")))).

Definition api3_body (body : option json) : res (option video_info) :=
  data <- response_json body ;;
  st <- py_get data (L "status") ;;
  if py_eq_str st K_STATUS_OK then
    ex <- py_get data K_EXTRACTED ;;
    if truthy ex then
      n <- py_len ex ;;
      if 0 <? n then
        extracted_info <- py_index0 ex ;;
        dl <- py_get extracted_info K_DIRECT ;;
        if truthy dl then
          th <- py_get extracted_info K_THUMBS ;;
          thumbnail_url <- (if truthy th then pick_thumbnail th else Ok JNull) ;;
          t <- py_get_default extracted_info K_TITLE (JStr (L "Video")) ;;
          sz <- py_get extracted_info K_SIZE ;;
          Ok (Some {| title := t; url := dl; size := sz;
                      thumbnail := thumbnail_url |})
        else Ok None
      else Ok None
    else Ok None
  else Ok None.

Definition fetch_from_api3 (get : str -> http_outcome) (terabox_url : str)
  : res (option video_info) :=
  let api_url := api3_url terabox_url in
  client_frame get api_url api3_body.

(** ** [escape_markdown_v2] *)

Definition backslash : ascii := ascii_of_nat 92.

(** [text.replace(c, new)] for a one-character [c]: every occurrence of [c],
    left to right, is replaced by [new]. *)
Fixpoint replace1 (c : ascii) (new : str) (text : str) : str :=
  match text with
  | [] => []
  | x :: t => (if Ascii.eqb x c then new else [x]) ++ replace1 c new t
  end.

Definition special_chars : list ascii :=
  [backslash; "_"; "*"; "["; "]"; "("; ")"; "~"; "`"; ">"; "#"; "+"; "-";
   "="; "|"; "{"; "}"; "."; "!"]%char.

(** [for char in special_chars: text = text.replace(char, '\\' + char)] *)
Definition escape_markdown_v2 (text : str) : str :=
  fold_left (fun t c => replace1 c [backslash; c] t) special_chars text.

(** ** [extract_terabox_link]: [re.search] with Python's backtracking
    semantics (leftmost start; alternatives and [?] tried left first; [+]
    greedy). *)

Inductive regex : Type :=
| REmpty
| RChar (c : ascii)
| RSeq (r1 r2 : regex)
| RAlt (r1 r2 : regex)
| ROpt (r : regex)                  (** [r?] *)
| RPlusClass (p : ascii -> bool).   (** [[...]+] *)

(** Characters of [p] at the front of [s]. *)
Fixpoint run (p : ascii -> bool) (s : str) : nat :=
  match s with
  | x :: t => if p x then S (run p t) else 0
  | [] => 0
  end.

(** Greedy repetition: try to leave [skipn n s], [skipn (n-1) s], ...,
    [skipn 1 s] to the continuation. *)
Fixpoint plus_try {A} (n : nat) (s : str) (k : str -> option A) : option A :=
  match n with
  | 0 => None
  | S n' =>
      match k (skipn n s) with
      | Some a => Some a
      | None => plus_try n' s k
      end
  end.

(** [mt r s k]: match [r] at the front of [s], then run the continuation
    [k] on the rest; the first success in backtracking order wins. *)
Fixpoint mt {A} (r : regex) (s : str) (k : str -> option A) : option A :=
  match r with
  | REmpty => k s
  | RChar c =>
      match s with
      | x :: t => if Ascii.eqb x c then k t else None
      | [] => None
      end
  | RSeq r1 r2 => mt r1 s (fun t => mt r2 t k)
  | RAlt r1 r2 =>
      match mt r1 s k with
      | Some a => Some a
      | None => mt r2 s k
      end
  | ROpt r1 =>
      match mt r1 s k with
      | Some a => Some a
      | None => k s
      end
  | RPlusClass p => plus_try (run p s) s k
  end.

(** A literal string. *)
Fixpoint rlit (w : str) : regex :=
  match w with
  | [] => REmpty
  | c :: w' => RSeq (RChar c) (rlit w')
  end.

(** [[a-zA-Z0-9_-]] *)
Definition token_char (c : ascii) : bool :=
  let n := nat_of_ascii c in
  ((97 <=? n) && (n <=? 122)) || ((65 <=? n) && (n <=? 90)) ||
  ((48 <=? n) && (n <=? 57)) || Ascii.eqb c "_"%char || Ascii.eqb c "-"%char.

(** [https?://(?:www\.)?] *)
Definition re_scheme_www : regex :=
  RSeq (rlit (L "http"))
   (RSeq (ROpt (RChar "s"%char))
    (RSeq (rlit (L "://")) (ROpt (rlit (L "www."))))).

(** [terabox(?:app)?\.com/s/] and [1024terabox\.com/s/], each after
    [https?://(?:www\.)?] *)
Definition re_alt1_prefix : regex :=
  RSeq re_scheme_www
    (RSeq (rlit (L "terabox"))
     (RSeq (ROpt (rlit (L "app"))) (rlit (L ".com/s/")))).

Definition re_alt2_prefix : regex :=
  RSeq re_scheme_www (rlit (L "1024terabox.com/s/")).

Definition re_token : regex := RPlusClass token_char.

(** [r'(https?://(?:www\.)?terabox(?:app)?\.com/s/[a-zA-Z0-9_-]+|
       https?://(?:www\.)?1024terabox\.com/s/[a-zA-Z0-9_-]+)'] *)
Definition terabox_re : regex :=
  RAlt (RSeq re_alt1_prefix re_token) (RSeq re_alt2_prefix re_token).

(** [re.search(pattern, text)] returning [match.group(0)]. *)
Fixpoint re_search (r : regex) (s : str) : option str :=
  match mt r s (fun t => Some t) with
  | Some rest => Some (firstn (length s - length rest) s)
  | None =>
      match s with
      | [] => None
      | _ :: s' => re_search r s'
      end
  end.

Definition extract_terabox_link (text : str) : option str :=
  re_search terabox_re text.

(** ** The message handler [handle_terabox_link] *)

(** Calls made to the outside: a provider client invoked by the cascade
    (announced by the log line ["Trying <api_name>..."]), and the chat
    platform's [reply_text] and [reply_video]. *)
Inductive event : Type :=
| ECall (api_name : str)
| EText (text : str) (parse_mode : option str)
| EVideo (video : str) (caption : str) (thumb : json).

(** The outside world seen by one handler run: the HTTP responses of the
    providers, and whether the platform rejects a [reply_text] or
    [reply_video] call (with the exception it raises). *)
Record platform : Type := {
  http : str -> http_outcome;
  text_result : str -> option str -> option exc;
  video_result : str -> str -> json -> option exc
}.

(** The handler's effects: the calls made so far, threaded through, and a
    result that may be an exception. *)
Definition M (A : Type) : Type := list event -> list event * res A.

Definition ret {A} (a : A) : M A := fun tr => (tr, Ok a).
Definition raise {A} (e : exc) : M A := fun tr => (tr, Raise e).
Definition lift {A} (r : res A) : M A := fun tr => (tr, r).
Definition bind {A B} (m : M A) (k : A -> M B) : M B :=
  fun tr => match m tr with
            | (tr', Ok a) => k a tr'
            | (tr', Raise e) => (tr', Raise e)
            end.
Definition mtry {A} (m : M A) (h : exc -> M A) : M A :=
  fun tr => match m tr with
            | (tr', Ok a) => (tr', Ok a)
            | (tr', Raise e) => h e tr'
            end.

Notation "m >>= k" := (bind m k) (at level 50, left associativity).
Notation "m >> k" := (bind m (fun _ => k)) (at level 50, left associativity).

Definition emit (ev : event) : M unit := fun tr => (tr ++ [ev], Ok tt).

Definition reply_text (p : platform) (text : str) (mode : option str) : M unit :=
  emit (EText text mode) >>
  match text_result p text mode with None => ret tt | Some e => raise e end.

Definition reply_video (p : platform) (v c : str) (th : json) : M unit :=
  emit (EVideo v c th) >>
  match video_result p v c th with None => ret tt | Some e => raise e end.

Definition OUTAGE_MARKER := L "download feature is currently down".

(** [video_info and video_info.get('url') and "download feature is currently
    down" not in video_info['url'].lower()]; [.lower()] raises unless the
    url is a [str]. *)
Definition accept (vi : option video_info) : res bool :=
  match vi with
  | None => Ok false
  | Some r =>
      if truthy (url r) then
        u <- as_str (url r) ;;
        Ok (negb (py_in OUTAGE_MARKER (lower u)))
      else Ok false
  end.

Definition fetcher := str -> res (option video_info).

(** [api_fetchers = [(fetch_from_api3, "API 3"), (fetch_from_api1, "API 1"),
    (fetch_from_api2, "API 2")]] *)
Definition api_fetchers (get : str -> http_outcome) : list (fetcher * str) :=
  [(fetch_from_api3 get, L "API 3");
   (fetch_from_api1 get, L "API 1");
   (fetch_from_api2 get, L "API 2")].

(** [for fetch_func, api_name in api_fetchers: video_info = await
    fetch_func(terabox_link); if <accept>: break]; [video_info] keeps the
    value of the last call. *)
Fixpoint cascade (link : str) (fs : list (fetcher * str))
  (last : option video_info) : M (option video_info) :=
  match fs with
  | [] => ret last
  | (fetch_func, api_name) :: rest =>
      emit (ECall api_name) >>
      lift (fetch_func link) >>= fun vi =>
      lift (accept vi) >>= fun ok =>
      if ok then ret vi else cascade link rest vi
  end.

(** [escape_markdown_v2] applied to a value that need not be a [str]
    ([None].replace raises [AttributeError]). *)
Definition escape_py (v : json) : res str :=
  s <- as_str v ;; Ok (escape_markdown_v2 s).

Definition caption_of (escaped_title escaped_size video_url : str) : str :=
  L "🎬 *" ++ escaped_title ++ L "*" ++ nl ++
  L "📦 Size: " ++ escaped_size ++ nl ++ nl ++
  L "[⬇️ Direct Download Link \(Click here\)](" ++ video_url ++ L ")".

Definition NOTE_TEXT : str :=
  L "If the video doesn't play directly or download, try clicking the 'Direct Download Link' in the message above or open it in your browser/download manager." ++ nl ++ nl ++
  L "❗ **Important Note:** Full-length streaming via direct links may be limited by Terabox's service policies on free accounts. For complete videos, offline playback or usage of the official Terabox app/website is generally more reliable.".

(** The body of the [try:] block. *)
Definition deliver_body (p : platform) (r : video_info) : M unit :=
  lift (escape_py (title r)) >>= fun escaped_title =>
  lift (escape_py (size r)) >>= fun escaped_size =>
  let thumbnail_url := thumbnail r in
  lift (as_str (url r)) >>= fun video_url =>
  (if negb (startswith video_url (L "http://") ||
            startswith video_url (L "https://"))
   then raise (ValueError (L "Invalid video URL received: " ++ video_url))
   else ret tt) >>
  reply_video p video_url (caption_of escaped_title escaped_size video_url)
    thumbnail_url >>
  reply_text p NOTE_TEXT None.

(** [error_message_for_user] *)
Definition classify (e : exc) : str :=
  if py_in (L "Failed to get http url content") (exc_str e) then
    L "Telegram couldn't access the video content from the provided URL. The link might be expired or restricted."
  else if py_in (L "Can't parse entities") (exc_str e) then
    L "a formatting error in the message. Trying to fix it now."
  else L "an unknown error".

Definition apology_text (e : exc) : str :=
  L "Sorry, I encountered an error while trying to send the video: " ++
  classify e ++ nl ++ nl ++ L "Please try clicking the direct link below.".

Definition fallback_text (escaped_url : str) : str :=
  L "Here's the direct link you can try manually downloading:" ++ nl ++ nl ++
  L "`" ++ escaped_url ++ L "`" ++ nl ++ nl ++
  L "Remember, some links may have playback restrictions.".

(** The [except Exception as e:] block. *)
Definition deliver_except (p : platform) (r : video_info) (e : exc) : M unit :=
  reply_text p (apology_text e) None >>
  if truthy (url r) then
    lift (escape_py (url r)) >>= fun eu =>
    reply_text p (fallback_text eu) (Some (L "MarkdownV2"))
  else ret tt.

Definition deliver (p : platform) (r : video_info) : M unit :=
  mtry (deliver_body p r) (deliver_except p r).

Definition GUIDANCE_TEXT : str :=
  L "That doesn't look like a valid Terabox share link. Please send a link like:" ++ nl ++
  L "`https://teraboxapp.com/s/some_share_id` or `https://1024terabox.com/s/some_share_id`".

Definition processing_text (link : str) : str :=
  L "Received your link: `" ++ link ++ L "`" ++ nl ++ nl ++
  L "Processing... This might take a moment (up to 30 seconds due to API calls).".

Definition NOT_RESOLVED_TEXT : str :=
  L "Sorry, I couldn't find a playable video for that Terabox link using any of the available APIs. The link might be invalid, expired, or the content type is not supported.".

Definition handle_terabox_link (p : platform) (user_message : str) : M unit :=
  match extract_terabox_link user_message with
  | None => reply_text p GUIDANCE_TEXT None
  | Some terabox_link =>
      reply_text p (processing_text terabox_link) (Some (L "Markdown")) >>
      cascade terabox_link (api_fetchers (http p)) None >>= fun vi =>
      match vi with
      | Some r =>
          if truthy (url r) then deliver p r
          else reply_text p NOT_RESOLVED_TEXT None
      | None => reply_text p NOT_RESOLVED_TEXT None
      end
  end.

(** ** The command handlers [start] and [help_command] *)

Definition START_TEXT : str :=
  L "Hi! Send me a Terabox share link, and I'll try to get the direct video or download link for you." ++ nl ++
  L "Example: `https://teraboxapp.com/s/1h97DwtT0zc0uDzfNNWbCsA`".

Definition start (p : platform) : M unit := reply_text p START_TEXT None.

Definition HELP_TEXT : str :=
  L "Send me a Terabox share link. I will process it and provide a downloadable video link or file if available." ++ nl ++ nl ++
  L "**Important Note:** Some Terabox links (especially for free accounts) might only provide previews or expire quickly. I'll do my best to get the full video, but it's not guaranteed by the external APIs." ++ nl ++ nl ++
  L "Example: `https://1024terabox.com/s/1lqQc8B3zvkwh5cqByDatog`".

Definition help_command (p : platform) : M unit := reply_text p HELP_TEXT None.

(** ** The Flask endpoint [telegram_webhook] *)

(** What Flask hands the view: [request.is_json] (the Content-Type), and the
    body as [request.get_json(force=True)] decodes it, [None] when the body
    is empty or not JSON. *)
Record request : Type := {
  is_json : bool;
  json_body : option json
}.

(** The bot application: [Update.de_json] and [process_update], the latter
    running the registered handlers. *)
Record application : Type := {
  de_json : json -> res json;
  process_update : json -> res unit
}.

Inductive resp_body : Type :=
| RText (s : str)
| RJson (j : json).

Inductive wevent : Type :=
| WDeserialize (update_data : json)
| WDispatch (update : json).

(** [request.get_json(force=True)]: a body that does not parse makes Flask
    call [on_json_loading_failed], which raises [BadRequest]. *)
Definition get_json_force (rq : request) : res json :=
  match json_body rq with Some j => Ok j | None => Raise BadRequest end.

Definition telegram_webhook (a : application) (rq : request)
  : list wevent * res (Z * resp_body) :=
  if negb (is_json rq) then
    ([], Ok (400%Z, RText (L "Bad Request: Content-Type must be application/json")))
  else
    match get_json_force rq with
    | Raise e => ([], Raise e)
    | Ok update_data =>
        if negb (truthy update_data) then
          ([], Ok (400%Z, RText (L "Bad Request: Empty or invalid JSON payload")))
        else
          match de_json a update_data with
          | Raise e =>
              ([WDeserialize update_data],
               Ok (500%Z, RText (L "Internal Server Error: Failed to parse Telegram update. Error: " ++ exc_str e)))
          | Ok update =>
              ([WDeserialize update_data; WDispatch update],
               match process_update a update with
               | Raise e => Raise e
               | Ok _ => Ok (200%Z, RJson (JObj [(L "status", JStr (L "ok"))]))
               end)
          end
    end.

(** Flask turns the view's result into the HTTP response: an
    [HTTPException] such as [BadRequest] gives its own code (400), any other
    exception a 500. *)
Definition flask_dispatch (a : application) (rq : request)
  : list wevent * (Z * resp_body) :=
  let (evs, r) := telegram_webhook a rq in
  (evs, match r with
        | Ok resp => resp
        | Raise BadRequest => (400%Z, RText (L "Bad Request"))
        | Raise _ => (500%Z, RText (L "Internal Server Error"))
        end).

(** ** Webhook registration when the module is imported *)

(** The Telegram side of [application_instance.bot]: the webhook url it
    holds, and whether [get_webhook_info] or [set_webhook] fails. *)
Record tg_bot : Type := {
  current_webhook : str;
  info_error : option exc;
  set_error : option exc
}.

Inductive bcall : Type :=
| BGetWebhookInfo
| BSetWebhook (u : str).

Definition get_webhook_info (b : tg_bot) : res str :=
  match info_error b with Some e => Raise e | None => Ok (current_webhook b) end.

Definition set_webhook (b : tg_bot) (u : str) : res tg_bot :=
  match set_error b with
  | Some e => Raise e
  | None => Ok {| current_webhook := u; info_error := info_error b;
                  set_error := set_error b |}
  end.

(** [_set_webhook_on_startup]: its whole body sits in [try: ... except
    Exception: logger.error(...)], so a failure only stops the remaining
    calls. *)
Definition set_webhook_on_startup (webhook_full_url : str) (b : tg_bot)
  : list bcall * tg_bot :=
  match get_webhook_info b with
  | Raise _ => ([BGetWebhookInfo], b)
  | Ok cur =>
      if negb (str_eqb cur webhook_full_url) then
        ([BGetWebhookInfo; BSetWebhook webhook_full_url],
         match set_webhook b webhook_full_url with
         | Ok b' => b'
         | Raise _ => b
         end)
      else ([BGetWebhookInfo], b)
  end.

(** The [else:] branch run on import by Gunicorn: [if WEBHOOK_URL:] the
    coroutine is run once (through [run_until_complete], or on a new event
    loop when [get_event_loop] raises). *)
Definition module_startup (WEBHOOK_URL : option str) (b : tg_bot)
  : list bcall * tg_bot :=
  match WEBHOOK_URL with
  | Some w =>
      if negb (Nat.eqb (length w) 0)
      then set_webhook_on_startup (w ++ L "/webhook") b
      else ([], b)
  | None => ([], b)
  end.

(** ** Concrete inputs used by the witnesses *)

Definition LINK : str := L "https://terabox.com/s/1abcDEF".

Definition JS (s : string) : json := JStr (L s).

(** A provider answering [o3] to API 3, [o1] to API 1 and [o2] to API 2. *)
Definition get_by_provider (o3 o1 o2 : http_outcome) : str -> http_outcome :=
  fun u => if startswith u API_WORKER_3_BASE then o3
           else if startswith u API_WORKER_1_BASE then o1
           else o2.

Definition body_api1_ok : json :=
  JObj [(L "status", JS "success");
        (L "list", JArr [JObj [(L "type", JS "video");
                               (L "playUrl", JS "https://cdn.example/a.mp4");
                               (L "name", JS "clip");
                               (L "size", JS "10 MB")]])].

Definition rec_a : video_info :=
  {| title := JS "clip"; url := JS "https://cdn.example/a.mp4";
     size := JS "10 MB"; thumbnail := JNull |}.

Definition body_api2 (u : string) : json :=
  JObj [(L "status", JS "success"); (L "download_link", JS u);
        (L "file_name", JS "clip"); (L "file_size", JS "10 MB")].

(** Every platform call succeeds. *)
Definition platform_ok (get : str -> http_outcome) : platform :=
  {| http := get; text_result := fun _ _ => None;
     video_result := fun _ _ _ => None |}.

Definition SPEC_LINK : str := L "https://1024terabox.com/s/1lqQc8B3zvkwh5cqByDatog".

Definition MARKER_URL : str :=
  L "https://cdn.example/Download Feature Is Currently Down".

(** API 3 and API 1 time out; API 2 answers [o2]. *)
Definition get_only_api2 (o2 : http_outcome) : str -> http_outcome :=
  get_by_provider (NetError Timeout) (NetError Timeout) o2.

Definition get_marker : str -> http_outcome :=
  get_only_api2 (Response 200 (Some (body_api2 "https://cdn.example/Download Feature Is Currently Down"))).

Definition get_nothing : str -> http_outcome :=
  get_only_api2 (Response 200 (Some (JObj [(L "status", JS "error")]))).

Definition rec_marker : video_info :=
  {| title := JS "clip"; url := JStr MARKER_URL; size := JS "10 MB";
     thumbnail := JNull |}.

(** A resolved record whose url is not http(s). *)
Definition rec_ftp : video_info :=
  {| title := JS "clip"; url := JS "ftp://x"; size := JS "1 MB"; thumbnail := JNull |}.

(** The chat platform refuses the video; text messages go through. *)
Definition platform_video_fails : platform :=
  {| http := fun _ => NetError Timeout; text_result := fun _ _ => None;
     video_result := fun _ _ _ =>
       Some (TelegramError (L "Bad Request: wrong file identifier/HTTP URL specified")) |}.

Definition UPDATE : json := JObj [(L "update_id", JNum 1%Z)].

Definition app_ok : application :=
  {| de_json := fun j => Ok j; process_update := fun _ => Ok tt |}.

Definition app_bad_update : application :=
  {| de_json := fun _ => Raise (KeyError);
     process_update := fun _ => Ok tt |}.

(** An API 1 list item without a ["size"] key, and the record API 1 builds
    from it ([item.get('size')] is [None]). *)
Definition item_nosize : json :=
  JObj [(L "type", JS "video"); (L "playUrl", JS "https://cdn.example/a.mp4");
        (L "name", JS "clip")].

Definition body_api1_nosize : json :=
  JObj [(L "status", JS "success"); (L "list", JArr [item_nosize])].

Definition rec_nosize : video_info :=
  {| title := JS "clip"; url := JS "https://cdn.example/a.mp4"; size := JNull;
     thumbnail := JNull |}.

(** An API 1 list whose first entry is a plain string. *)
Definition body_api1_ad_first : json :=
  JObj [(L "status", JS "success");
        (L "list", JArr [JS "ad"; JObj [(L "type", JS "video");
                                        (L "playUrl", JS "https://cdn.example/a.mp4")]])].

(** An API 3 answer whose thumbnails are given as a list. *)
Definition info_thumb_list : json :=
  JObj [(K_DIRECT, JS "https://cdn.example/a.mp4");
        (K_THUMBS, JArr [JS "https://cdn.example/t.jpg"])].

Definition body_api3_thumb_list : json :=
  JObj [(L "status", JStr K_STATUS_OK); (K_EXTRACTED, JArr [info_thumb_list])].

(** A bot whose webhook points elsewhere; Telegram answers every call. *)
Definition bot_elsewhere : tg_bot :=
  {| current_webhook := L "https://old.example/webhook"; info_error := None;
     set_error := None |}.

(** ** Notions used by the statements *)

Definition clients : list (((str -> http_outcome) -> str -> res (option video_info))
                           * (str -> str)) :=
  [(fetch_from_api1, api1_url); (fetch_from_api2, api2_url);
   (fetch_from_api3, api3_url)].

Definition mem (c : ascii) (cs : list ascii) : bool := existsb (Ascii.eqb c) cs.

(** One character after the replacements for the characters of [done]. *)
Definition esc_with (done : list ascii) (c : ascii) : str :=
  if mem c done then [backslash; c] else [c].

(** The replacements can run in the order [cs] after [done] without touching
    what an earlier one inserted: no character twice, and the backslash, if
    present, first. *)
Fixpoint safe_order (done cs : list ascii) : bool :=
  match cs with
  | [] => true
  | c :: cs' =>
      negb (mem c done) &&
      (if Ascii.eqb c backslash then Nat.eqb (length done) 0 else true) &&
      safe_order (done ++ [c]) cs'
  end.

(** The link shape, in the words of the spec: [http://] or [https://], an
    optional [www.], one of the accepted domains, [/s/], then a non-empty
    token of letters, digits, [_] and [-]. *)
Definition share_domains : list str :=
  [L "terabox.com"; L "teraboxapp.com"; L "1024terabox.com"].

Definition share_prefixes : list str :=
  flat_map (fun sch =>
    flat_map (fun w => map (fun d => sch ++ w ++ d ++ L "/s/") share_domains)
      [[]; L "www."])
    [L "http://"; L "https://"].

Definition well_formed_link (l : str) : Prop :=
  exists p tok, In p share_prefixes /\ l = p ++ tok /\ tok <> [] /\
                forallb token_char tok = true.

Definition starts_with_link (s : str) : Prop :=
  exists l r, s = l ++ r /\ well_formed_link l.

(** *** The matcher on regexes without repetition *)

Fixpoint plus_free (r : regex) : bool :=
  match r with
  | REmpty | RChar _ => true
  | RSeq a b | RAlt a b => plus_free a && plus_free b
  | ROpt a => plus_free a
  | RPlusClass _ => false
  end.

(** The words of a repetition-free regex, in backtracking order. *)
Fixpoint words (r : regex) : list str :=
  match r with
  | REmpty => [[]]
  | RChar c => [[c]]
  | RSeq a b => flat_map (fun u => map (app u) (words b)) (words a)
  | RAlt a b => words a ++ words b
  | ROpt a => words a ++ [[]]
  | RPlusClass _ => []
  end.

Fixpoint first_some {A} (l : list (option A)) : option A :=
  match l with
  | [] => None
  | Some a :: _ => Some a
  | None :: l' => first_some l'
  end.

Definition try_word {A} (s : str) (k : str -> option A) (w : str) : option A :=
  if startswith s w then k (skipn (length w) s) else None.

Definition re_prefix_words : list str :=
  words re_alt1_prefix ++ words re_alt2_prefix.

Definition plus_final (t : str) : option str :=
  plus_try (run token_char t) t (fun x => Some x).

Definition http_url (v : str) : bool :=
  startswith v (L "http://") || startswith v (L "https://").

Definition event_ok (ev : event) : Prop :=
  match ev with EVideo v _ _ => http_url v = true | _ => True end.

(** A computation that only adds calls allowed by [event_ok]. *)
Definition keeps_ok {A} (m : M A) : Prop :=
  forall tr, Forall event_ok tr -> Forall event_ok (fst (m tr)).

(** MarkdownV2 plain text as Telegram reads it: a backslash escapes the
    character after it, and a reserved character may not appear
    unescaped. *)
Fixpoint md_safe (s : str) : bool :=
  match s with
  | [] => true
  | c :: t =>
      if Ascii.eqb c backslash then
        match t with [] => false | _ :: t' => md_safe t' end
      else negb (mem c special_chars) && md_safe t
  end.

(** Reading escaped text back: drop the backslash in front of each escaped
    character. *)
Fixpoint unescape_md (s : str) : str :=
  match s with
  | [] => []
  | c :: t =>
      if Ascii.eqb c backslash then
        match t with [] => [c] | d :: t' => d :: unescape_md t' end
      else c :: unescape_md t
  end.

(** The provider names announced in a trace, in order. *)
Definition calls_of (tr : list event) : list str :=
  flat_map (fun ev => match ev with ECall n => [n] | _ => [] end) tr.

(** A computation that contacts no provider. *)
Definition calls_fixed {A} (m : M A) : Prop :=
  forall tr, calls_of (fst (m tr)) = calls_of tr.

(** The acknowledgement body, and a trace with no dispatch. *)
Definition ACK : resp_body := RJson (JObj [(L "status", JStr (L "ok"))]).

Definition no_dispatch (evs : list wevent) : Prop :=
  forall u, ~ In (WDispatch u) evs.

(** * Properties *)

(** ** Generic facts *)


Lemma startswith_app (p y : str) : startswith (p ++ y) p = true.
Proof.
  induction p as [|c p IH]; simpl; [reflexivity|].
  rewrite Ascii.eqb_refl, IH; reflexivity.
Qed.

Lemma py_in_app (n x y : str) : py_in n (x ++ n ++ y) = true.
Proof.
  induction x as [|c x IH]; simpl.
  - destruct n; simpl; [destruct y; reflexivity|].
    rewrite Ascii.eqb_refl, startswith_app; reflexivity.
  - rewrite IH, orb_true_r; reflexivity.
Qed.

Lemma lower_app (a b : str) : lower (a ++ b) = lower a ++ lower b.
Proof. apply map_app. Qed.

Lemma client_except_none (e : exc) : client_except e = Ok None.
Proof.
  unfold client_except.
  now destruct (is_request_exception e), (is_value_error e).
Qed.

(** ** C1: the cascade order *)

(** C1.  The cascade calls the clients in the order API 3, API 1, API 2 and
    stops at the first acceptable result: when API 3's result is rejected by
    the acceptance check and API 1's is accepted, the loop returns API 1's
    result and the only clients called are API 3 then API 1 (API 2 is never
    called). *)
Theorem cascade_priority_order (get : str -> http_outcome) (link : str)
  (v3 v1 : option video_info)
  (H3 : fetch_from_api3 get link = Ok v3) (R3 : accept v3 = Ok false)
  (H1 : fetch_from_api1 get link = Ok v1) (A1 : accept v1 = Ok true)
  (tr : list event) :
  cascade link (api_fetchers get) None tr =
  (tr ++ [ECall (L "API 3"); ECall (L "API 1")], Ok v1).
Proof.
  unfold api_fetchers; cbn [cascade].
  unfold bind, emit, lift, ret.
  rewrite H3, R3, H1, A1, <- app_assoc; reflexivity.
Qed.

Lemma cascade_priority_order_witness :
  cascade LINK
    (api_fetchers (get_by_provider (NetError Timeout)
                     (Response 200 (Some body_api1_ok))
                     (Response 200 (Some (body_api2 "https://cdn.example/b.mp4")))))
    None [] =
  ([] ++ [ECall (L "API 3"); ECall (L "API 1")], Ok (Some rec_a)).
Proof.
  apply (cascade_priority_order _ LINK None (Some rec_a));
    vm_compute; reflexivity.
Defined.

(** ** C10: client records carry a url *)

Lemma rbind_ok {A B} (m : res A) (k : A -> res B) (v : B) :
  rbind m k = Ok v -> exists a, m = Ok a /\ k a = Ok v.
Proof. destruct m as [a|e]; simpl; [eauto|discriminate]. Qed.

Ltac res_inv H :=
  repeat match type of H with
  | rbind ?m ?k = Ok _ =>
      let a := fresh "a" in let Hm := fresh "Hm" in let Hk := fresh "Hk" in
      destruct (rbind_ok m k _ H) as [a [Hm Hk]]; clear H; rename Hk into H;
      cbv beta in H
  | (if ?b then _ else _) = Ok _ =>
      let Hb := fresh "Hb" in destruct b eqn:Hb
  | Ok _ = Ok _ => injection H as H
  | None = Some _ => discriminate H
  | Ok _ = Raise _ => discriminate H
  end.

Lemma client_frame_some (get : str -> http_outcome) (u : str)
  (parse : option json -> res (option video_info)) (r : video_info) :
  client_frame get u parse = Ok (Some r) ->
  exists b, parse b = Ok (Some r).
Proof.
  unfold client_frame.
  destruct (requests_get get u) as [[st b]|e]; simpl;
    [|rewrite client_except_none; discriminate].
  destruct (raise_for_status st); simpl;
    [|rewrite client_except_none; discriminate].
  destruct (parse b) eqn:E; simpl; intro H;
    [|rewrite client_except_none in H; discriminate].
  exists b; rewrite E; exact H.
Qed.

Lemma api1_scan_url (items : list json) (r : video_info) :
  api1_scan items = Ok (Some r) -> truthy (url r) = true.
Proof.
  induction items as [|item rest IH]; simpl; [discriminate|].
  intro H; res_inv H; auto.
  simpl in *; subst r; simpl; congruence.
Qed.

(** C10.  Every record a client returns has a truthy ['url']: each client
    builds a record only after checking that its direct-link field
    ([playUrl], [download_link], [🔗 Direct Download Link]) is truthy, so
    the [video_info.get('url')] part of the acceptance check always holds
    for it. *)
Theorem client_records_have_url (get : str -> http_outcome) (link : str)
  (r : video_info) :
  (fetch_from_api1 get link = Ok (Some r) -> truthy (url r) = true) /\
  (fetch_from_api2 get link = Ok (Some r) -> truthy (url r) = true) /\
  (fetch_from_api3 get link = Ok (Some r) -> truthy (url r) = true).
Proof.
  split; [|split]; intro H; apply client_frame_some in H as [b H].
  - unfold api1_body in H; res_inv H; eauto using api1_scan_url.
  - unfold api2_body in H; res_inv H; subst r; simpl; congruence.
  - unfold api3_body in H; res_inv H; subst r; simpl; congruence.
Qed.

Lemma client_records_have_url_witness :
  fetch_from_api1 (fun _ => Response 200 (Some body_api1_ok)) LINK
    = Ok (Some rec_a) /\
  truthy (url rec_a) = true.
Proof.
  split; [vm_compute; reflexivity|].
  apply (proj1 (client_records_have_url
                  (fun _ => Response 200 (Some body_api1_ok)) LINK rec_a)).
  vm_compute; reflexivity.
Defined.

(** ** C4: the clients never raise *)








(** ** C6: [escape_markdown_v2] *)

Lemma replace1_app c new (a b : str) :
  replace1 c new (a ++ b) = replace1 c new a ++ replace1 c new b.
Proof.
  induction a as [|x a IH]; simpl; [reflexivity|].
  rewrite IH, app_assoc; reflexivity.
Qed.

Lemma mem_app c a b : mem c (a ++ b) = mem c a || mem c b.
Proof. unfold mem; apply existsb_app. Qed.

Lemma replace1_step (done : list ascii) (c : ascii) (s : str) :
  mem c done = false ->
  (Ascii.eqb c backslash = true -> done = []) ->
  replace1 c [backslash; c] (flat_map (esc_with done) s) =
  flat_map (esc_with (done ++ [c])) s.
Proof.
  intros Hc Hb; induction s as [|x s IH]; simpl; [reflexivity|].
  rewrite replace1_app, IH; f_equal.
  unfold esc_with, mem in *; rewrite existsb_app; cbn [existsb].
  destruct (existsb (Ascii.eqb x) done) eqn:Hx; cbn [replace1 app orb].
  - destruct (Ascii.eqb backslash c) eqn:E1.
    + apply Ascii.eqb_eq in E1; subst c.
      rewrite (Hb (Ascii.eqb_refl _)) in Hx; discriminate.
    + destruct (Ascii.eqb x c) eqn:E2; [|reflexivity].
      apply Ascii.eqb_eq in E2; subst x; congruence.
  - rewrite orb_false_r.
    destruct (Ascii.eqb x c) eqn:E; [|reflexivity].
    apply Ascii.eqb_eq in E; subst x; reflexivity.
Qed.

Lemma fold_replace (cs done : list ascii) (s : str) :
  safe_order done cs = true ->
  fold_left (fun t c => replace1 c [backslash; c] t) cs
    (flat_map (esc_with done) s) =
  flat_map (esc_with (done ++ cs)) s.
Proof.
  revert done; induction cs as [|c cs IH]; intros done H; simpl.
  - rewrite app_nil_r; reflexivity.
  - simpl in H; apply andb_prop in H as [H H3]; apply andb_prop in H as [H1 H2].
    rewrite replace1_step.
    + rewrite IH by exact H3; rewrite <- app_assoc; reflexivity.
    + destruct (mem c done); [discriminate|reflexivity].
    + intro E; rewrite E in H2; apply Nat.eqb_eq in H2.
      destruct done; [reflexivity|discriminate].
Qed.

Lemma flat_map_esc_nil (s : str) : flat_map (esc_with []) s = s.
Proof.
  induction s as [|x s IH]; simpl; [reflexivity|]; rewrite IH; reflexivity.
Qed.

(** C6.  One application of [escape_markdown_v2] puts exactly one backslash
    in front of every character of the reserved set (backslash, [_], [*],
    [[], []], [(], [)], [~], [`], [>], [#], [+], [-], [=], [|], [{], [}],
    [.], [!]) and leaves every other character alone; the backslash is
    replaced first, so the backslashes inserted later are not escaped
    again.  In particular ["A.B(C)"] becomes ["A\.B\(C\)"]. *)
Theorem escape_markdown_v2_spec (text : str) :
  escape_markdown_v2 text =
  flat_map (fun c => if mem c special_chars then [backslash; c] else [c]) text /\
  escape_markdown_v2 (L "A.B(C)") = L "A\.B\(C\)".
Proof.
  split; [|vm_compute; reflexivity].
  unfold escape_markdown_v2.
  rewrite <- (flat_map_esc_nil text) at 1.
  rewrite fold_replace by (vm_compute; reflexivity).
  reflexivity.
Qed.

(** ** C5: [extract_terabox_link] *)

Lemma first_some_app {A} (l1 l2 : list (option A)) :
  first_some (l1 ++ l2) =
  match first_some l1 with Some a => Some a | None => first_some l2 end.
Proof.
  induction l1 as [|[a|] l1 IH]; simpl; auto.
Qed.

Lemma first_some_one {A} (x : option A) : first_some [x] = x.
Proof. destruct x; reflexivity. Qed.

Lemma startswith_app_iff (s u v : str) :
  startswith s (u ++ v) = startswith s u && startswith (skipn (length u) s) v.
Proof.
  revert s; induction u as [|c u IH]; intros s; simpl; [reflexivity|].
  destruct s as [|x s]; simpl; [reflexivity|].
  rewrite IH, andb_assoc; reflexivity.
Qed.

Lemma skipn_skipn' (n m : nat) (s : str) :
  skipn (n + m) s = skipn m (skipn n s).
Proof. rewrite skipn_skipn, Nat.add_comm; reflexivity. Qed.

Lemma first_some_none {A} (l : list str) (f : str -> option A) :
  (forall w, In w l -> f w = None) -> first_some (map f l) = None.
Proof.
  induction l as [|w l IH]; simpl; intros H; [reflexivity|].
  rewrite H by auto; apply IH; auto.
Qed.

Lemma mt_words {A} (r : regex) :
  plus_free r = true ->
  forall (s : str) (k : str -> option A),
  mt r s k = first_some (map (try_word s k) (words r)).
Proof.
  induction r as [|c|a IHa b IHb|a IHa b IHb|a IHa|p]; simpl; intros Hpf s k.
  - unfold try_word; simpl; destruct (k s); reflexivity.
  - unfold try_word; simpl.
    destruct s as [|x s]; simpl; [reflexivity|].
    rewrite andb_true_r; destruct (Ascii.eqb x c); simpl; [|reflexivity].
    destruct (k s); reflexivity.
  - apply andb_prop in Hpf as [Ha Hb].
    rewrite IHa by exact Ha; clear IHa.
    induction (words a) as [|u us IH]; simpl; [reflexivity|].
    rewrite map_app, first_some_app, IH.
    unfold try_word at 1.
    destruct (startswith s u) eqn:Su.
    + rewrite IHb by exact Hb.
      assert (E : map (try_word (skipn (length u) s) k) (words b) =
                  map (try_word s k) (map (app u) (words b))).
      { rewrite map_map; apply map_ext; intros v; unfold try_word.
        rewrite startswith_app_iff, Su, length_app, skipn_skipn'; reflexivity. }
      rewrite E; reflexivity.
    + rewrite (first_some_none (map (app u) (words b))); [reflexivity|].
      intros w Hw; apply in_map_iff in Hw as [v [<- _]].
      unfold try_word; rewrite startswith_app_iff, Su; reflexivity.
  - apply andb_prop in Hpf as [Ha Hb].
    rewrite IHa, IHb by assumption; rewrite map_app, first_some_app; reflexivity.
  - rewrite IHa by exact Hpf; rewrite map_app, first_some_app.
    destruct (first_some _); [reflexivity|].
    unfold try_word; simpl; destruct (k s); reflexivity.
  - discriminate.
Qed.

(** *** The pattern of [extract_terabox_link] *)

Lemma plus_try_some (n : nat) (t : str) :
  plus_try n t (fun x => Some x) =
  match n with 0 => None | S _ => Some (skipn n t) end.
Proof. destruct n; reflexivity. Qed.

Lemma mt_terabox_re (s : str) :
  mt terabox_re s (fun x => Some x) =
  first_some (map (try_word s plus_final) re_prefix_words).
Proof.
  unfold re_prefix_words; rewrite map_app, first_some_app.
  change (mt terabox_re s (fun x => Some x)) with
    (match mt re_alt1_prefix s (fun t => mt re_token t (fun x => Some x)) with
     | Some a => Some a
     | None => mt re_alt2_prefix s (fun t => mt re_token t (fun x => Some x))
     end).
  rewrite !mt_words by reflexivity; reflexivity.
Qed.

Lemma str_eqb_eq (a b : str) : str_eqb a b = true <-> a = b.
Proof.
  revert b; induction a as [|x a IH]; intros [|y b]; simpl;
    split; intro H; try discriminate; auto.
  - apply andb_prop in H as [H1 H2]; apply Ascii.eqb_eq in H1.
    apply IH in H2; subst; reflexivity.
  - injection H as <- <-; rewrite Ascii.eqb_refl; simpl; apply IH; reflexivity.
Qed.

Lemma in_by_eqb (w : str) (l : list str) :
  existsb (str_eqb w) l = true -> In w l.
Proof.
  intro H; apply existsb_exists in H as [x [Hx E]].
  apply str_eqb_eq in E; subst; exact Hx.
Qed.

Lemma prefix_words_share (w : str) :
  In w re_prefix_words <-> In w share_prefixes.
Proof.
  assert (H1 : forallb (fun w => existsb (str_eqb w) share_prefixes)
                 re_prefix_words = true) by (vm_compute; reflexivity).
  assert (H2 : forallb (fun w => existsb (str_eqb w) re_prefix_words)
                 share_prefixes = true) by (vm_compute; reflexivity).
  rewrite forallb_forall in H1, H2.
  split; intro H; apply in_by_eqb; auto.
Qed.

Lemma prefix_words_prefix_free (w1 w2 : str) :
  In w1 re_prefix_words -> In w2 re_prefix_words ->
  startswith w1 w2 = true -> w1 = w2.
Proof.
  assert (H : forallb (fun w1 => forallb (fun w2 =>
                 implb (startswith w1 w2) (str_eqb w1 w2)) re_prefix_words)
                re_prefix_words = true) by (vm_compute; reflexivity).
  intros I1 I2 S12.
  rewrite forallb_forall in H; specialize (H w1 I1).
  rewrite forallb_forall in H; specialize (H w2 I2).
  rewrite S12 in H; apply str_eqb_eq; exact H.
Qed.

Lemma startswith_both (s a b : str) :
  startswith s a = true -> startswith s b = true ->
  startswith a b = true \/ startswith b a = true.
Proof.
  revert s b; induction a as [|x a IH]; intros s b Ha Hb;
    [destruct b; simpl; auto|].
  destruct b as [|y b]; [left; reflexivity|].
  destruct s as [|z s]; [discriminate|].
  simpl in *; apply andb_prop in Ha as [Ex Ha]; apply andb_prop in Hb as [Ey Hb].
  apply Ascii.eqb_eq in Ex, Ey; subst.
  rewrite Ascii.eqb_refl; simpl; eapply IH; eauto.
Qed.

Lemma startswith_split (s w : str) :
  startswith s w = true -> s = w ++ skipn (length w) s.
Proof.
  revert s; induction w as [|c w IH]; intros s H; [reflexivity|].
  destruct s as [|x s]; [discriminate|].
  simpl in H; apply andb_prop in H as [E H]; apply Ascii.eqb_eq in E; subst.
  simpl; f_equal; apply IH; exact H.
Qed.

Lemma run_firstn (t : str) : forallb token_char (firstn (run token_char t) t) = true.
Proof.
  induction t as [|x t IH]; simpl; [reflexivity|].
  destruct (token_char x) eqn:E; simpl; [rewrite E, IH|]; reflexivity.
Qed.

Lemma run_le (t : str) : run token_char t <= length t.
Proof.
  induction t as [|x t IH]; simpl; [lia|].
  destruct (token_char x); simpl; lia.
Qed.

Lemma run_app (tok post : str) :
  forallb token_char tok = true ->
  run token_char (tok ++ post) = length tok + run token_char post.
Proof.
  induction tok as [|x tok IH]; simpl; intro H; [reflexivity|].
  apply andb_prop in H as [H1 H2]; rewrite H1, IH by exact H2; reflexivity.
Qed.

Lemma first_some_in {A} (g : str -> option A) (l : list str) (a : A) :
  first_some (map g l) = Some a -> exists w, In w l /\ g w = Some a.
Proof.
  induction l as [|w l IH]; simpl; [discriminate|].
  destruct (g w) eqn:E; intro H.
  - injection H as <-; eauto.
  - destruct (IH H) as [x [Hx Ex]]; eauto.
Qed.

Lemma first_some_only {A} (g : str -> option A) (l : list str) (p : str) :
  In p l -> (forall w, In w l -> g w = None \/ w = p) ->
  first_some (map g l) = g p.
Proof.
  intros Hin H; destruct (g p) as [a|] eqn:Gp.
  - induction l as [|w l IH]; simpl; [contradiction|].
    destruct (H w (or_introl eq_refl)) as [E|E].
    + rewrite E; apply IH.
      * destruct Hin as [<-|Hin]; [congruence|exact Hin].
      * intros v Hv; apply H; right; exact Hv.
    + subst w; rewrite Gp; reflexivity.
  - clear Hin; induction l as [|w l IH]; simpl; [reflexivity|].
    destruct (H w (or_introl eq_refl)) as [E|E]; [|subst w]; rewrite ?E, ?Gp;
      apply IH; intros v Hv; apply H; right; exact Hv.
Qed.

(** A match of the pattern at the front of [s] is a well-formed link. *)
Lemma mt_terabox_sound (s rest : str) :
  mt terabox_re s (fun x => Some x) = Some rest ->
  exists l, s = l ++ rest /\ well_formed_link l.
Proof.
  rewrite mt_terabox_re; intro H.
  apply first_some_in in H as [w [Hw H]].
  unfold try_word in H; destruct (startswith s w) eqn:Sw; [|discriminate].
  unfold plus_final in H; rewrite plus_try_some in H.
  set (t := skipn (length w) s) in H.
  destruct (run token_char t) as [|n] eqn:Rn; [discriminate|].
  injection H as <-.
  exists (w ++ firstn (S n) t); split.
  - rewrite <- app_assoc, firstn_skipn; apply startswith_split; exact Sw.
  - exists w, (firstn (S n) t); split; [apply prefix_words_share; exact Hw|].
    split; [reflexivity|split].
    + pose proof (run_le t) as Hle; rewrite Rn in Hle.
      destruct t as [|x t]; simpl in *; [lia|discriminate].
    + rewrite <- Rn; apply run_firstn.
Qed.

(** At a well-formed link followed by a non-token character (or by the end
    of the text), the pattern matches exactly the link. *)
Lemma mt_terabox_link (p tok post : str) :
  In p share_prefixes -> tok <> [] -> forallb token_char tok = true ->
  run token_char post = 0 ->
  mt terabox_re (p ++ tok ++ post) (fun x => Some x) = Some post.
Proof.
  intros Hp Htok Hall Hpost.
  apply prefix_words_share in Hp.
  rewrite mt_terabox_re, (first_some_only _ _ p Hp).
  - unfold try_word; rewrite startswith_app, skipn_app, Nat.sub_diag,
      skipn_all; simpl.
    unfold plus_final; rewrite plus_try_some, run_app, Hpost by exact Hall.
    destruct tok as [|x tok]; [contradiction|].
    rewrite Nat.add_0_r, skipn_app, Nat.sub_diag, skipn_all; reflexivity.
  - intros w Hw; unfold try_word.
    destruct (startswith (p ++ tok ++ post) w) eqn:Sw; [|left; reflexivity].
    right; destruct (startswith_both _ _ _ Sw (startswith_app p (tok ++ post)))
      as [E|E].
    + apply prefix_words_prefix_free; auto.
    + symmetry; apply prefix_words_prefix_free; auto.
Qed.

(** At a well-formed link the greedy token takes the link's token and then
    every letter, digit, [_] and [-] that follows it. *)
Lemma mt_terabox_link_gen (p tok post : str) :
  In p share_prefixes -> tok <> [] -> forallb token_char tok = true ->
  mt terabox_re (p ++ tok ++ post) (fun x => Some x) =
  Some (skipn (run token_char post) post).
Proof.
  intros Hp Htok Hall.
  apply prefix_words_share in Hp.
  rewrite mt_terabox_re, (first_some_only _ _ p Hp).
  - unfold try_word; rewrite startswith_app, skipn_app, Nat.sub_diag,
      skipn_all; simpl.
    unfold plus_final; rewrite plus_try_some, run_app by exact Hall.
    destruct tok as [|x tok]; [contradiction|].
    assert (G : forall (a b : str) k, skipn (length a + k) (a ++ b) = skipn k b)
      by (induction a as [|y a IH]; intros; [reflexivity|apply IH]).
    exact (f_equal Some (G (x :: tok) post (run token_char post))).
  - intros w Hw; unfold try_word.
    destruct (startswith (p ++ tok ++ post) w) eqn:Sw; [|left; reflexivity].
    right; destruct (startswith_both _ _ _ Sw (startswith_app p (tok ++ post)))
      as [E|E].
    + apply prefix_words_prefix_free; auto.
    + symmetry; apply prefix_words_prefix_free; auto.
Qed.

(** *** [re.search] *)

Lemma re_search_here (r : regex) (s rest : str) :
  mt r s (fun x => Some x) = Some rest ->
  re_search r s = Some (firstn (length s - length rest) s).
Proof. destruct s; simpl; intros ->; reflexivity. Qed.

Lemma re_search_skip (r : regex) (pre x : str) :
  (forall i, i < length pre -> mt r (skipn i (pre ++ x)) (fun y => Some y) = None) ->
  re_search r (pre ++ x) = re_search r x.
Proof.
  induction pre as [|c pre IH]; intro H; [reflexivity|].
  assert (H0 : 0 < length (c :: pre)) by (simpl; lia).
  specialize (H 0 H0) as H1; simpl in H1 |- *; rewrite H1.
  apply IH; intros i Hi; apply (H (S i)); simpl; lia.
Qed.

Lemma re_search_none (r : regex) (s : str) :
  (forall i, mt r (skipn i s) (fun y => Some y) = None) -> re_search r s = None.
Proof.
  induction s as [|c s IH]; intro H; simpl.
  - specialize (H 0) as H0; simpl in H0; rewrite H0; reflexivity.
  - specialize (H 0) as H0; simpl in H0; rewrite H0.
    apply IH; intro i; apply (H (S i)).
Qed.

Lemma starts_with_link_prefix (s : str) :
  starts_with_link s -> existsb (startswith s) share_prefixes = true.
Proof.
  intros [l [r [E [p [tok [Hp [El _]]]]]]]; subst.
  apply existsb_exists; exists p; split; [exact Hp|].
  rewrite <- !app_assoc; apply startswith_app.
Qed.

Lemma no_match_without_link (s : str) :
  ~ starts_with_link s -> mt terabox_re s (fun x => Some x) = None.
Proof.
  intro H; destruct (mt terabox_re s (fun x => Some x)) as [rest|] eqn:E;
    [|reflexivity].
  exfalso; apply H; apply mt_terabox_sound in E as [l [E W]].
  exists l, rest; auto.
Qed.

(** C5 (as stated).  A link written right before a letter, digit, [_] or
    [-] is not returned as written: the token of the pattern is greedy, so
    in the Telegram italic text ["_https://terabox.com/s/abc_"] the
    extractor returns the link with the closing underscore. *)
Lemma extract_absorbs_adjacent_token_char :
  well_formed_link (L "https://terabox.com/s/abc") /\
  ~ starts_with_link (L "_https://terabox.com/s/abc_") /\
  extract_terabox_link (L "_" ++ L "https://terabox.com/s/abc" ++ L "_")
  = Some (L "https://terabox.com/s/abc_").
Proof.
  split; [|split].
  - exists (L "https://terabox.com/s/"), (L "abc"); split;
      [apply in_by_eqb; vm_compute; reflexivity|].
    split; [reflexivity|split; [discriminate|reflexivity]].
  - intro H; apply starts_with_link_prefix in H; vm_compute in H; discriminate.
  - vm_compute; reflexivity.
Qed.

(** C5 (amended).  When the text is [pre ++ link ++ post] with [link] a
    well-formed share link, no well-formed share link starting inside [pre],
    and [post] empty or starting with a character other than a letter, a
    digit, [_] or [-], the extractor returns exactly [link]; when no
    well-formed share link starts anywhere in the text, it returns
    nothing; and when [link] is directly followed by a letter, a digit,
    [_] or [-], the extractor returns [link] extended by the whole run of
    such characters that follows it, a strictly longer substring. *)
Theorem extract_terabox_link_spec :
  (forall pre link post,
     well_formed_link link ->
     (post = [] \/ exists c rest, post = c :: rest /\ token_char c = false) ->
     (forall i, i < length pre ->
        ~ starts_with_link (skipn i (pre ++ link ++ post))) ->
     extract_terabox_link (pre ++ link ++ post) = Some link) /\
  (forall text, (forall i, ~ starts_with_link (skipn i text)) ->
     extract_terabox_link text = None) /\
  (forall pre link c rest,
     well_formed_link link -> token_char c = true ->
     (forall i, i < length pre ->
        ~ starts_with_link (skipn i (pre ++ link ++ c :: rest))) ->
     extract_terabox_link (pre ++ link ++ c :: rest)
     = Some (link ++ firstn (run token_char (c :: rest)) (c :: rest)) /\
     length link < length (link ++ firstn (run token_char (c :: rest)) (c :: rest))).
Proof.
  split; [|split].
  - intros pre link post [p [tok [Hp [El [Hne Hall]]]]] Hpost Hpre.
    unfold extract_terabox_link.
    rewrite re_search_skip
      by (intros i Hi; apply no_match_without_link, Hpre; exact Hi).
    assert (Hrun : run token_char post = 0)
      by (destruct Hpost as [->|[c [rest [-> Hc]]]]; simpl; [|rewrite Hc];
          reflexivity).
    rewrite (re_search_here _ _ post).
    + rewrite length_app, Nat.add_sub, firstn_app, Nat.sub_diag, firstn_all;
        simpl; rewrite app_nil_r; reflexivity.
    + subst link; rewrite <- app_assoc; apply mt_terabox_link; assumption.
  - intros text H; apply re_search_none; intro i; apply no_match_without_link, H.
  - intros pre link c rest [p [tok [Hp [El [Hne Hall]]]]] Hc Hpre.
    set (post := c :: rest).
    assert (Hr : run token_char post = S (run token_char rest))
      by (unfold post; simpl; rewrite Hc; reflexivity).
    assert (Hle := run_le post).
    unfold extract_terabox_link.
    rewrite re_search_skip
      by (intros i Hi; apply no_match_without_link, Hpre; exact Hi).
    rewrite (re_search_here _ _ (skipn (run token_char post) post)).
    + split.
      * rewrite length_skipn, length_app.
        replace (length link + length post - (length post - run token_char post))
          with (length link + run token_char post) by lia.
        rewrite firstn_app_2; reflexivity.
      * rewrite length_app, length_firstn, Hr; simpl; lia.
    + subst link; rewrite <- app_assoc; apply mt_terabox_link_gen; assumption.
Qed.

Lemma extract_terabox_link_spec_witness :
  extract_terabox_link (L "check this out " ++ SPEC_LINK ++ L " thanks")
  = Some SPEC_LINK.
Proof.
  apply (proj1 extract_terabox_link_spec).
  - exists (L "https://1024terabox.com/s/"), (L "1lqQc8B3zvkwh5cqByDatog");
      split; [apply in_by_eqb; vm_compute; reflexivity|].
    split; [reflexivity|split; [discriminate|reflexivity]].
  - right; exists " "%char, (L "thanks"); split; reflexivity.
  - intros i Hi H; apply starts_with_link_prefix in H; simpl in Hi.
    do 15 (destruct i as [|i]; [vm_compute in H; discriminate|]); lia.
Defined.

(** ** C2 and C3: the outage marker *)

Lemma accept_marker (r : video_info) (pre m post : str) :
  url r = JStr (pre ++ m ++ post) -> lower m = OUTAGE_MARKER ->
  accept (Some r) = Ok false.
Proof.
  intros Hu Hm; unfold accept; rewrite Hu; simpl.
  destruct (length (pre ++ m ++ post)) eqn:E; simpl.
  - exfalso; apply length_zero_iff_nil in E.
    apply app_eq_nil in E as [_ E]; apply app_eq_nil in E as [E _].
    subst m; discriminate.
  - rewrite !lower_app, Hm, py_in_app; reflexivity.
Qed.

Lemma cascade_last_irrelevant (link : str) (fs : list (fetcher * str))
  (l1 l2 : option video_info) :
  fs <> [] -> cascade link fs l1 = cascade link fs l2.
Proof. destruct fs as [|[f n] fs]; [contradiction|reflexivity]. Qed.

(** C2.  The loop rejects a marker url, but after the loop the code only
    re-checks [video_info and video_info.get('url')], on the value of the
    last call.  When API 3 and API 1 fail and API 2 returns a record whose
    url carries the outage marker, all three results are rejected, yet the
    record is delivered as a video (and the could-not-resolve message is not
    sent). *)
Theorem outage_record_of_last_provider_is_sent :
  fetch_from_api2 get_marker LINK = Ok (Some rec_marker) /\
  accept (Some rec_marker) = Ok false /\
  fst (handle_terabox_link (platform_ok get_marker) LINK []) =
  [EText (processing_text LINK) (Some (L "Markdown"));
   ECall (L "API 3"); ECall (L "API 1"); ECall (L "API 2");
   EVideo MARKER_URL (caption_of (L "clip") (L "10 MB") MARKER_URL) JNull;
   EText NOTE_TEXT None].
Proof. split; [|split]; vm_compute; reflexivity. Qed.

(** C3.  A result whose url contains ["download feature is currently
    down"] in any letter case is rejected by the loop's acceptance check,
    and when a later provider remains the cascade goes on exactly as if
    the provider had returned [None].  For the last provider it is not the
    same: with API 3 and API 1 failing, API 2 returning such a record leads
    to a video send, API 2 returning nothing to the could-not-resolve
    message. *)
Theorem outage_marker_treatment :
  (forall r pre m post,
     url r = JStr (pre ++ m ++ post) -> lower m = OUTAGE_MARKER ->
     accept (Some r) = Ok false) /\
  (forall link (f1 f2 : fetcher) name rest last r tr,
     f1 link = Ok (Some r) -> f2 link = Ok None -> accept (Some r) = Ok false ->
     rest <> [] ->
     cascade link ((f1, name) :: rest) last tr =
     cascade link ((f2, name) :: rest) last tr) /\
  (fst (handle_terabox_link (platform_ok get_nothing) LINK []) =
   [EText (processing_text LINK) (Some (L "Markdown"));
    ECall (L "API 3"); ECall (L "API 1"); ECall (L "API 2");
    EText NOT_RESOLVED_TEXT None] /\
   fst (handle_terabox_link (platform_ok get_marker) LINK []) <>
   fst (handle_terabox_link (platform_ok get_nothing) LINK [])).
Proof.
  split; [exact accept_marker|split].
  - intros link f1 f2 name rest last r tr H1 H2 A Hrest; cbn [cascade].
    unfold bind, emit, lift; rewrite H1, H2, A; simpl.
    rewrite (cascade_last_irrelevant link rest (Some r) None Hrest); reflexivity.
  - split; vm_compute; [reflexivity|discriminate].
Qed.

Lemma outage_marker_treatment_witness :
  accept (Some rec_marker) = Ok false.
Proof.
  apply (proj1 outage_marker_treatment rec_marker (L "https://cdn.example/")
           (L "Download Feature Is Currently Down") []); vm_compute; reflexivity.
Defined.

(** ** C7: only http(s) urls reach [reply_video] *)

Lemma keeps_ok_ret {A} (a : A) : keeps_ok (ret a).
Proof. intros tr H; exact H. Qed.

Lemma keeps_ok_raise {A} (e : exc) : keeps_ok (@raise A e).
Proof. intros tr H; exact H. Qed.

Lemma keeps_ok_lift {A} (r : res A) : keeps_ok (lift r).
Proof. intros tr H; exact H. Qed.

Lemma keeps_ok_emit (ev : event) : event_ok ev -> keeps_ok (emit ev).
Proof. intros Hev tr H; simpl; apply Forall_app; auto. Qed.

Lemma keeps_ok_bind {A B} (m : M A) (k : A -> M B) :
  keeps_ok m -> (forall a, keeps_ok (k a)) -> keeps_ok (m >>= k).
Proof.
  intros Hm Hk tr H; unfold bind; specialize (Hm tr H).
  destruct (m tr) as [tr' [a|e]]; simpl in *; [apply (Hk a)|]; exact Hm.
Qed.

Lemma keeps_ok_mtry {A} (m : M A) (h : exc -> M A) :
  keeps_ok m -> (forall e, keeps_ok (h e)) -> keeps_ok (mtry m h).
Proof.
  intros Hm Hh tr H; unfold mtry; specialize (Hm tr H).
  destruct (m tr) as [tr' [a|e]]; simpl in *; [|apply (Hh e)]; exact Hm.
Qed.

Lemma keeps_ok_reply_text p t mode : keeps_ok (reply_text p t mode).
Proof.
  apply keeps_ok_bind; [apply keeps_ok_emit; exact I|].
  intros _; destruct (text_result p t mode);
    [apply keeps_ok_raise|apply keeps_ok_ret].
Qed.

Lemma keeps_ok_cascade link fs last : keeps_ok (cascade link fs last).
Proof.
  revert last; induction fs as [|[f n] fs IH]; intros last; simpl;
    [apply keeps_ok_ret|].
  repeat (apply keeps_ok_bind; intros; try apply keeps_ok_lift).
  - apply keeps_ok_emit; exact I.
  - destruct a0; [apply keeps_ok_ret|apply IH].
Qed.

Lemma keeps_ok_deliver_body p r : keeps_ok (deliver_body p r).
Proof.
  unfold deliver_body.
  apply keeps_ok_bind; [apply keeps_ok_lift|intros et].
  apply keeps_ok_bind; [apply keeps_ok_lift|intros es].
  apply keeps_ok_bind; [apply keeps_ok_lift|intros vu].
  destruct (http_url vu) eqn:Hv; unfold http_url in Hv; rewrite Hv; cbn [negb].
  - apply keeps_ok_bind; [|intros _; apply keeps_ok_reply_text].
    apply keeps_ok_bind; [apply keeps_ok_ret|intros _].
    unfold reply_video.
    apply keeps_ok_bind; [apply keeps_ok_emit; exact Hv|intros _].
    destruct (video_result p _ _ _); [apply keeps_ok_raise|apply keeps_ok_ret].
  - intros tr H; exact H.
Qed.

Lemma keeps_ok_deliver_except p r e : keeps_ok (deliver_except p r e).
Proof.
  unfold deliver_except.
  apply keeps_ok_bind; [apply keeps_ok_reply_text|intros _].
  destruct (truthy (url r)); [|apply keeps_ok_ret].
  apply keeps_ok_bind; [apply keeps_ok_lift|intros; apply keeps_ok_reply_text].
Qed.

(** The [try:] body raises before any platform call when the url check
    fails. *)
Lemma deliver_body_bad_url p r u tr :
  url r = JStr u -> http_url u = false ->
  exists e, snd (deliver_body p r tr) = Raise e /\ fst (deliver_body p r tr) = tr.
Proof.
  intros Hu Hv; unfold http_url in Hv; unfold deliver_body, bind, lift.
  destruct (escape_py (title r)); cbv beta iota; [|eexists; split; reflexivity].
  destruct (escape_py (size r)); cbv beta iota; [|eexists; split; reflexivity].
  rewrite Hu; cbn [as_str]; cbv beta iota; rewrite Hv; cbn.
  eexists; split; reflexivity.
Qed.

(** C7.  Every [reply_video] call the handler makes is for a url starting
    with [http://] or [https://]; when the resolved url does not, no video
    is sent for it and the [except] path (apology and fallback text) runs
    instead. *)
Theorem media_send_requires_http_url :
  (forall p msg,
     Forall event_ok (fst (handle_terabox_link p msg []))) /\
  (forall p r u tr,
     url r = JStr u -> http_url u = false ->
     exists e, deliver p r tr = deliver_except p r e tr /\
               Forall event_ok (fst (deliver p r [])) ).
Proof.
  split.
  - intros p msg; unfold handle_terabox_link.
    assert (H0 : Forall event_ok ([] : list event)) by constructor.
    revert H0; generalize (@nil event); intros tr H0.
    destruct (extract_terabox_link msg) as [link|];
      [|apply keeps_ok_reply_text; exact H0].
    revert tr H0.
    apply keeps_ok_bind;
      [apply keeps_ok_bind; [apply keeps_ok_reply_text|intros _; apply keeps_ok_cascade]
      |intros vi].
    destruct vi as [r|]; [|apply keeps_ok_reply_text].
    destruct (truthy (url r)); [|apply keeps_ok_reply_text].
    apply keeps_ok_mtry; [apply keeps_ok_deliver_body|apply keeps_ok_deliver_except].
  - intros p r u tr Hu Hv.
    destruct (deliver_body_bad_url p r u tr Hu Hv) as [e [He Ht]].
    exists e; split.
    + unfold deliver, mtry.
      destruct (deliver_body p r tr) as [tr' x]; simpl in He, Ht; subst.
      reflexivity.
    + apply (keeps_ok_mtry _ _ (keeps_ok_deliver_body p r)
               (keeps_ok_deliver_except p r)); constructor.
Qed.

Lemma media_send_requires_http_url_witness :
  url rec_ftp = JStr (L "ftp://x") /\ http_url (L "ftp://x") = false /\
  exists e, deliver platform_video_fails rec_ftp []
            = deliver_except platform_video_fails rec_ftp e [].
Proof.
  split; [reflexivity|split; [vm_compute; reflexivity|]].
  destruct (proj2 media_send_requires_http_url platform_video_fails rec_ftp
              (L "ftp://x") [] eq_refl eq_refl) as [e [E _]].
  exists e; exact E.
Defined.

(** ** Delivery failure *)

Lemma fallback_text_split (x : str) :
  fallback_text x =
  (L "Here's the direct link you can try manually downloading:" ++ nl ++ nl ++ L "`")
  ++ x ++ (L "`" ++ nl ++ nl ++ L "Remember, some links may have playback restrictions.").
Proof. unfold fallback_text; rewrite <- !app_assoc; reflexivity. Qed.

(** C8.  When the resolved record has a non-empty string url and the
    [try:] body fails with exception [e] (whatever it raised, the video send
    included), the handler catches it, sends the apology naming the
    classified reason, and then sends the fallback message in which the
    escaped url appears literally; the handler ends normally exactly when
    that last send is accepted. *)
Theorem delivery_failure_fallback p r u e tr tr1 :
  url r = JStr u -> u <> [] ->
  deliver_body p r tr = (tr1, Raise e) ->
  text_result p (apology_text e) None = None ->
  fst (deliver p r tr) =
    tr1 ++ [EText (apology_text e) None;
            EText (fallback_text (escape_markdown_v2 u)) (Some (L "MarkdownV2"))] /\
  snd (deliver p r tr) =
    (match text_result p (fallback_text (escape_markdown_v2 u)) (Some (L "MarkdownV2")) with
     | None => Ok tt
     | Some e' => Raise e'
     end) /\
  py_in (escape_markdown_v2 u) (fallback_text (escape_markdown_v2 u)) = true /\
  py_in (classify e) (apology_text e) = true.
Proof.
  intros Hu Hne Hb Ha.
  assert (Hd : deliver p r tr = deliver_except p r e tr1)
    by (unfold deliver, mtry; rewrite Hb; reflexivity).
  rewrite Hd.
  assert (Ht : truthy (url r) = true)
    by (rewrite Hu; destruct u; [contradiction|reflexivity]).
  unfold deliver_except, reply_text, bind, emit, ret, raise, lift.
  rewrite Ha, Ht, Hu; cbn [escape_py as_str rbind].
  rewrite <- app_assoc.
  destruct (text_result p (fallback_text (escape_markdown_v2 u)) (Some (L "MarkdownV2")));
    cbn [fst snd]; (split; [reflexivity|split; [reflexivity|split]]).
  all: first [ rewrite fallback_text_split; apply py_in_app
             | unfold apology_text; apply (py_in_app _ (L _)) ].
Qed.

Lemma delivery_failure_fallback_witness :
  fst (deliver platform_video_fails rec_a []) =
    fst (deliver_body platform_video_fails rec_a []) ++
    [EText (apology_text (TelegramError (L "Bad Request: wrong file identifier/HTTP URL specified"))) None;
     EText (fallback_text (escape_markdown_v2 (L "https://cdn.example/a.mp4"))) (Some (L "MarkdownV2"))].
Proof.
  refine (proj1 (delivery_failure_fallback platform_video_fails rec_a
           (L "https://cdn.example/a.mp4")
           (TelegramError (L "Bad Request: wrong file identifier/HTTP URL specified"))
           [] (fst (deliver_body platform_video_fails rec_a [])) _ _ _ _));
    [reflexivity|discriminate|vm_compute; reflexivity|reflexivity].
Defined.

(** ** The webhook endpoint *)

(** C9.  The endpoint answers 400 without deserializing or dispatching
    anything when the request is not declared JSON, when its body does not
    parse (empty included) and when the parsed payload is falsy; it answers
    500 without dispatching when [Update.de_json] raises; and it answers 200
    with the JSON body [{"status": "ok"}] after dispatching the update when
    deserialization and [process_update] both succeed. *)
Theorem webhook_status_codes (a : application) (rq : request) :
  (is_json rq = false ->
     fst (flask_dispatch a rq) = [] /\ fst (snd (flask_dispatch a rq)) = 400%Z) /\
  (is_json rq = true -> json_body rq = None ->
     fst (flask_dispatch a rq) = [] /\ fst (snd (flask_dispatch a rq)) = 400%Z) /\
  (forall j, is_json rq = true -> json_body rq = Some j -> truthy j = false ->
     fst (flask_dispatch a rq) = [] /\ fst (snd (flask_dispatch a rq)) = 400%Z) /\
  (forall j e, is_json rq = true -> json_body rq = Some j -> truthy j = true ->
     de_json a j = Raise e ->
     no_dispatch (fst (flask_dispatch a rq)) /\ fst (snd (flask_dispatch a rq)) = 500%Z) /\
  (forall j u, is_json rq = true -> json_body rq = Some j -> truthy j = true ->
     de_json a j = Ok u -> process_update a u = Ok tt ->
     flask_dispatch a rq = ([WDeserialize j; WDispatch u], (200%Z, ACK))).
Proof.
  unfold flask_dispatch, telegram_webhook, get_json_force.
  repeat split; intros;
    repeat match goal with H : _ = _ |- _ => rewrite H end;
    cbn; auto.
  intros u [E|[]]; discriminate.
Qed.

Lemma webhook_status_codes_witness :
  flask_dispatch app_ok {| is_json := true; json_body := Some UPDATE |}
  = ([WDeserialize UPDATE; WDispatch UPDATE], (200%Z, ACK)) /\
  fst (snd (flask_dispatch app_bad_update
                {| is_json := true; json_body := Some UPDATE |})) = 500%Z.
Proof.
  split.
  - apply (proj2 (proj2 (proj2 (proj2
             (webhook_status_codes app_ok {| is_json := true; json_body := Some UPDATE |}))))
             UPDATE UPDATE); reflexivity.
  - apply (proj2 (proj1 (proj2 (proj2 (proj2
             (webhook_status_codes app_bad_update
                {| is_json := true; json_body := Some UPDATE |})))) UPDATE KeyError
             eq_refl eq_refl eq_refl eq_refl)).
Defined.

(** * Further properties of the code *)

(** ** [escape_markdown_v2] *)

Lemma escape_flat (text : str) :
  escape_markdown_v2 text = flat_map (esc_with special_chars) text.
Proof.
  unfold escape_markdown_v2.
  rewrite <- (flat_map_esc_nil text) at 1.
  rewrite fold_replace by (vm_compute; reflexivity).
  reflexivity.
Qed.

Lemma backslash_special : mem backslash special_chars = true.
Proof. reflexivity. Qed.

Lemma escape_cons (c : ascii) (t : str) :
  escape_markdown_v2 (c :: t) = esc_with special_chars c ++ escape_markdown_v2 t.
Proof. rewrite !escape_flat; reflexivity. Qed.

(** Escaping works character by character: the escape of a concatenation
    is the concatenation of the escapes. *)
Theorem escape_markdown_v2_app (a b : str) :
  escape_markdown_v2 (a ++ b) = escape_markdown_v2 a ++ escape_markdown_v2 b.
Proof. rewrite !escape_flat; apply flat_map_app. Qed.

(** The escaped text is valid MarkdownV2 plain text (no reserved character
    left unescaped, no dangling backslash), and dropping the inserted
    backslashes gives the input back; so escaping loses nothing and two
    different texts never escape to the same one. *)
Theorem escape_markdown_v2_roundtrip (a b : str) :
  md_safe (escape_markdown_v2 a) = true /\
  unescape_md (escape_markdown_v2 a) = a /\
  (escape_markdown_v2 a = escape_markdown_v2 b <-> a = b).
Proof.
  assert (R : forall s, unescape_md (escape_markdown_v2 s) = s).
  { induction s as [|c t IH]; [reflexivity|].
    rewrite escape_cons; unfold esc_with.
    destruct (mem c special_chars) eqn:Hc; simpl.
    - rewrite IH; reflexivity.
    - destruct (Ascii.eqb c backslash) eqn:E.
      + apply Ascii.eqb_eq in E; subst c; discriminate.
      + rewrite IH; reflexivity. }
  split; [|split; [apply R|]].
  - induction a as [|c t IH]; [reflexivity|].
    rewrite escape_cons; unfold esc_with.
    destruct (mem c special_chars) eqn:Hc; cbn [app md_safe].
    + rewrite Ascii.eqb_refl; exact IH.
    + destruct (Ascii.eqb c backslash) eqn:E.
      * apply Ascii.eqb_eq in E; subst c; discriminate.
      * rewrite Hc; exact IH.
  - split; [intro E; rewrite <- (R a), <- (R b), E; reflexivity|intros ->; reflexivity].
Qed.

(** Escaping adds exactly one character per reserved character of the
    input. *)
Theorem escape_markdown_v2_length (text : str) :
  length (escape_markdown_v2 text) =
  length text + length (filter (fun c => mem c special_chars) text).
Proof.
  induction text as [|c t IH]; [reflexivity|].
  rewrite escape_cons, length_app, IH; unfold esc_with; cbn [filter].
  destruct (mem c special_chars); cbn [length]; lia.
Qed.

(** ** [extract_terabox_link] *)

Lemma run_skipn (p : ascii -> bool) (t : str) : run p (skipn (run p t) t) = 0.
Proof.
  induction t as [|x t IH]; [reflexivity|]; simpl.
  destruct (p x) eqn:E; simpl; [exact IH|rewrite E; reflexivity].
Qed.

Lemma mt_terabox_rest (s rest : str) :
  mt terabox_re s (fun x => Some x) = Some rest -> run token_char rest = 0.
Proof.
  rewrite mt_terabox_re; intro H.
  apply first_some_in in H as [w [_ H]].
  unfold try_word in H; destruct (startswith s w); [|discriminate].
  unfold plus_final in H; rewrite plus_try_some in H.
  set (t := skipn (length w) s) in H.
  assert (E : rest = skipn (run token_char t) t)
    by (destruct (run token_char t); [discriminate|congruence]).
  rewrite E; apply run_skipn.
Qed.

Lemma first_some_none_in {A} (l : list (option A)) (x : option A) :
  first_some l = None -> In x l -> x = None.
Proof.
  induction l as [|[a|] l IH]; simpl; [intros _ []|discriminate|].
  intros H [E|E]; auto.
Qed.

(** Where a well-formed link starts, the pattern matches. *)
Lemma link_matches (s : str) :
  starts_with_link s -> mt terabox_re s (fun x => Some x) <> None.
Proof.
  intros [l [r [E [p [tok [Hp [El [Hne Hall]]]]]]]] F; subst s l.
  rewrite mt_terabox_re in F.
  apply prefix_words_share in Hp.
  pose proof (first_some_none_in _ _ F (in_map (try_word ((p ++ tok) ++ r) plus_final) _ _ Hp))
    as G.
  unfold try_word in G; rewrite <- app_assoc, startswith_app, skipn_app, Nat.sub_diag,
    skipn_all in G; simpl in G.
  unfold plus_final in G; rewrite plus_try_some, run_app in G by exact Hall.
  destruct tok; [contradiction|discriminate].
Qed.

Lemma re_search_some (r : regex) (s l : str) :
  re_search r s = Some l ->
  exists pre x rest, s = pre ++ x /\ mt r x (fun y => Some y) = Some rest /\
    l = firstn (length x - length rest) x /\
    (forall i, i < length pre -> mt r (skipn i s) (fun y => Some y) = None).
Proof.
  induction s as [|c s IH]; simpl.
  - destruct (mt r [] (fun y => Some y)) as [rest|] eqn:E; [|discriminate].
    intros H; injection H as <-.
    exists [], [], rest; repeat split; auto; intros i Hi; simpl in Hi; lia.
  - destruct (mt r (c :: s) (fun y => Some y)) as [rest|] eqn:E; intro H.
    + injection H as <-.
      exists [], (c :: s), rest; repeat split; auto; intros i Hi; simpl in Hi; lia.
    + destruct (IH H) as [pre [x [rest [Es [M [El Hpre]]]]]].
      exists (c :: pre), x, rest; subst s; repeat split; auto.
      intros [|i] Hi; [exact E|]; simpl in Hi |- *; apply Hpre; lia.
Qed.

Lemma extract_sound_aux (text l : str) :
  extract_terabox_link text = Some l ->
  well_formed_link l /\
  exists pre post, text = pre ++ l ++ post /\
    (forall i, i < length pre -> ~ starts_with_link (skipn i text)) /\
    run token_char post = 0.
Proof.
  unfold extract_terabox_link; intro H.
  destruct (re_search_some _ _ _ H) as [pre [x [rest [Es [M [El Hpre]]]]]].
  pose proof (mt_terabox_rest _ _ M) as Rr.
  destruct (mt_terabox_sound _ _ M) as [l' [Ex W]]; subst x.
  assert (l = l') as ->.
  { rewrite El, length_app, Nat.add_sub, firstn_app, Nat.sub_diag, firstn_all.
    simpl; apply app_nil_r. }
  split; [exact W|].
  exists pre, rest; split; [exact Es|split; [|exact Rr]].
  intros i Hi S; apply (link_matches _ S), Hpre, Hi.
Qed.

Lemma extract_well_formed (l : str) :
  well_formed_link l -> extract_terabox_link l = Some l.
Proof.
  intros [p [tok [Hp [El [Hne Hall]]]]].
  unfold extract_terabox_link.
  pose proof (mt_terabox_link p tok [] Hp Hne Hall eq_refl) as M.
  rewrite app_nil_r, <- El in M.
  rewrite (re_search_here _ _ _ M); simpl; rewrite Nat.sub_0_r, firstn_all; reflexivity.
Qed.

(** What the extractor returns is a well-formed share link occurring in the
    text: the earliest one, with its token taken as far as it goes (the
    text goes on with no letter, digit, [_] or [-] after it). *)
Theorem extract_terabox_link_sound (text l : str) :
  extract_terabox_link text = Some l ->
  well_formed_link l /\
  exists pre post, text = pre ++ l ++ post /\
    (forall i, i < length pre -> ~ starts_with_link (skipn i text)) /\
    run token_char post = 0.
Proof. apply extract_sound_aux. Qed.

Lemma extract_terabox_link_sound_witness :
  well_formed_link (L "https://terabox.com/s/abc_") /\
  exists pre post, L "see _https://terabox.com/s/abc_ now" = pre ++ L "https://terabox.com/s/abc_" ++ post /\
    (forall i, i < length pre -> ~ starts_with_link (skipn i (L "see _https://terabox.com/s/abc_ now"))) /\
    run token_char post = 0.
Proof.
  apply extract_terabox_link_sound; vm_compute; reflexivity.
Defined.

(** The extracted link, sent on its own, is extracted unchanged. *)
Theorem extract_terabox_link_idempotent (text l : str) :
  extract_terabox_link text = Some l -> extract_terabox_link l = Some l.
Proof.
  intro H; apply extract_well_formed, (extract_sound_aux text l H).
Qed.

Lemma extract_terabox_link_idempotent_witness :
  extract_terabox_link (L "https://www.teraboxapp.com/s/1Ab-x_Y") =
  Some (L "https://www.teraboxapp.com/s/1Ab-x_Y").
Proof.
  apply (extract_terabox_link_idempotent (L "link: https://www.teraboxapp.com/s/1Ab-x_Y!"));
    vm_compute; reflexivity.
Defined.

(** An extracted link holds only letters, digits, [_], [-], [:], [/] and
    [.]: nothing that could break the query string it is pasted into
    unencoded ([?url=], [?key=free&url=], [?link=]). *)
Theorem extract_terabox_link_charset (text l : str) :
  extract_terabox_link text = Some l ->
  forall c, In c l -> token_char c = true \/ In c (L ":/.").
Proof.
  intro H; destruct (extract_sound_aux text l H) as [[p [tok [Hp [El [_ Hall]]]]] _].
  assert (Hpc : forallb (fun p => forallb (fun c => token_char c || mem c (L ":/.")) p)
                  share_prefixes = true) by (vm_compute; reflexivity).
  intros c Hc; subst l; apply in_app_or in Hc as [Hc|Hc].
  - rewrite forallb_forall in Hpc; specialize (Hpc p Hp).
    rewrite forallb_forall in Hpc; specialize (Hpc c Hc).
    apply orb_prop in Hpc as [T|T]; [left; exact T|right].
    unfold mem in T; apply existsb_exists in T as [d [Hd E]].
    apply Ascii.eqb_eq in E; subst d; exact Hd.
  - left; rewrite forallb_forall in Hall; apply Hall, Hc.
Qed.

Lemma extract_terabox_link_charset_witness :
  token_char ":"%char = true \/ In ":"%char (L ":/.").
Proof.
  apply (extract_terabox_link_charset (L "go https://1024terabox.com/s/x-1 go")
           (L "https://1024terabox.com/s/x-1")); [vm_compute; reflexivity|].
  simpl; right; right; right; right; right; left; reflexivity.
Defined.

(** ** [start], [help_command] and the guidance reply *)

(** [/start] and [/help] each send one plain message, and the example link
    shown there, like the one in the reply to a message without a link, is
    one the extractor accepts as it is written. *)
Theorem shown_examples_are_accepted (p : platform) :
  fst (start p []) = [EText START_TEXT None] /\
  fst (help_command p []) = [EText HELP_TEXT None] /\
  extract_terabox_link START_TEXT =
    Some (L "https://teraboxapp.com/s/1h97DwtT0zc0uDzfNNWbCsA") /\
  extract_terabox_link HELP_TEXT =
    Some (L "https://1024terabox.com/s/1lqQc8B3zvkwh5cqByDatog") /\
  extract_terabox_link GUIDANCE_TEXT =
    Some (L "https://teraboxapp.com/s/some_share_id").
Proof.
  split; [|split].
  - unfold start, reply_text, bind, emit; simpl.
    destruct (text_result p START_TEXT None); reflexivity.
  - unfold help_command, reply_text, bind, emit; simpl.
    destruct (text_result p HELP_TEXT None); reflexivity.
  - split; [|split]; vm_compute; reflexivity.
Qed.

(** ** Which providers a message reaches *)

Lemma calls_of_app (a b : list event) : calls_of (a ++ b) = calls_of a ++ calls_of b.
Proof. apply flat_map_app. Qed.

Lemma calls_fixed_ret {A} (a : A) : calls_fixed (ret a).
Proof. intros tr; reflexivity. Qed.

Lemma calls_fixed_raise {A} (e : exc) : calls_fixed (@raise A e).
Proof. intros tr; reflexivity. Qed.

Lemma calls_fixed_lift {A} (r : res A) : calls_fixed (lift r).
Proof. intros tr; reflexivity. Qed.

Lemma calls_fixed_bind {A B} (m : M A) (k : A -> M B) :
  calls_fixed m -> (forall a, calls_fixed (k a)) -> calls_fixed (m >>= k).
Proof.
  intros Hm Hk tr; unfold bind; specialize (Hm tr).
  destruct (m tr) as [tr' [a|e]]; simpl in *; [rewrite Hk|]; exact Hm.
Qed.

Lemma calls_fixed_mtry {A} (m : M A) (h : exc -> M A) :
  calls_fixed m -> (forall e, calls_fixed (h e)) -> calls_fixed (mtry m h).
Proof.
  intros Hm Hh tr; unfold mtry; specialize (Hm tr).
  destruct (m tr) as [tr' [a|e]]; simpl in *; [|rewrite Hh]; exact Hm.
Qed.

Lemma calls_fixed_emit_text t mode : calls_fixed (emit (EText t mode)).
Proof. intros tr; unfold emit; simpl; rewrite calls_of_app, app_nil_r; reflexivity. Qed.

Lemma calls_fixed_reply_text p t mode : calls_fixed (reply_text p t mode).
Proof.
  apply calls_fixed_bind; [apply calls_fixed_emit_text|intros _].
  destruct (text_result p t mode); [apply calls_fixed_raise|apply calls_fixed_ret].
Qed.

Lemma calls_fixed_reply_video p v c th : calls_fixed (reply_video p v c th).
Proof.
  apply calls_fixed_bind.
  - intros tr; unfold emit; simpl; rewrite calls_of_app, app_nil_r; reflexivity.
  - intros _; destruct (video_result p v c th);
      [apply calls_fixed_raise|apply calls_fixed_ret].
Qed.

Lemma calls_fixed_deliver p r : calls_fixed (deliver p r).
Proof.
  apply calls_fixed_mtry; [|intros e].
  - unfold deliver_body.
    apply calls_fixed_bind; [apply calls_fixed_lift|intros et].
    apply calls_fixed_bind; [apply calls_fixed_lift|intros es].
    apply calls_fixed_bind; [apply calls_fixed_lift|intros vu].
    apply calls_fixed_bind; [|intros _; apply calls_fixed_reply_text].
    apply calls_fixed_bind; [|intros _; apply calls_fixed_reply_video].
    destruct (negb _); [apply calls_fixed_raise|apply calls_fixed_ret].
  - unfold deliver_except.
    apply calls_fixed_bind; [apply calls_fixed_reply_text|intros _].
    destruct (truthy (url r)); [|apply calls_fixed_ret].
    apply calls_fixed_bind; [apply calls_fixed_lift|intros; apply calls_fixed_reply_text].
Qed.

Lemma cascade_calls link fs last tr :
  exists k, calls_of (fst (cascade link fs last tr)) = calls_of tr ++ firstn k (map snd fs).
Proof.
  revert last tr; induction fs as [|[f n] fs IH]; intros last tr.
  - exists 0; simpl; rewrite app_nil_r; reflexivity.
  - cbn [cascade]; unfold bind, emit, lift.
    assert (C : calls_of (tr ++ [ECall n]) = calls_of tr ++ firstn 1 (map snd ((f, n) :: fs)))
      by (rewrite calls_of_app; reflexivity).
    destruct (f link) as [vi|e]; [|exists 1; exact C].
    destruct (accept vi) as [[|]|e]; [exists 1; exact C| |exists 1; exact C].
    destruct (IH vi (tr ++ [ECall n])) as [k Hk].
    exists (S k); rewrite Hk, calls_of_app, <- app_assoc; reflexivity.
Qed.

Lemma calls_bind_fixed {A B} (m : M A) (k : A -> M B) tr :
  (forall a, calls_fixed (k a)) ->
  calls_of (fst ((m >>= k) tr)) = calls_of (fst (m tr)).
Proof.
  intro Hk; unfold bind; destruct (m tr) as [tr' [a|e]]; [apply Hk|reflexivity].
Qed.

Lemma handler_continuation_fixed p (vi : option video_info) :
  calls_fixed (match vi with
               | Some r => if truthy (url r) then deliver p r
                           else reply_text p NOT_RESOLVED_TEXT None
               | None => reply_text p NOT_RESOLVED_TEXT None
               end).
Proof.
  destruct vi as [r|]; [destruct (truthy (url r))|];
    first [apply calls_fixed_deliver | apply calls_fixed_reply_text].
Qed.

(** One message reaches at most the providers API 3, API 1 and API 2, in
    this order, each at most once; a message without a share link reaches
    none. *)
Theorem handler_provider_calls (p : platform) (msg : str) :
  (exists k, calls_of (fst (handle_terabox_link p msg [])) =
             firstn k [L "API 3"; L "API 1"; L "API 2"]) /\
  (extract_terabox_link msg = None ->
   calls_of (fst (handle_terabox_link p msg [])) = []).
Proof.
  unfold handle_terabox_link.
  destruct (extract_terabox_link msg) as [link|] eqn:Ex.
  - split; [|discriminate].
    rewrite calls_bind_fixed by apply handler_continuation_fixed.
    unfold bind.
    pose proof (calls_fixed_reply_text p (processing_text link) (Some (L "Markdown")) [])
      as H1.
    destruct (reply_text p (processing_text link) (Some (L "Markdown")) [])
      as [tr1 [u|e]]; cbn [fst] in H1 |- *; [|exists 0; exact H1].
    destruct (cascade_calls link (api_fetchers (http p)) None tr1) as [k Hk].
    exists k; rewrite Hk, H1; reflexivity.
  - split; [exists 0|intros _]; apply (calls_fixed_reply_text p GUIDANCE_TEXT None []).
Qed.

(** ** Delivery of records with a missing title or size *)

Lemma deliver_caught p r u e tr tr1 :
  url r = JStr u -> u <> [] ->
  deliver_body p r tr = (tr1, Raise e) ->
  text_result p (apology_text e) None = None ->
  fst (deliver p r tr) =
  tr1 ++ [EText (apology_text e) None;
          EText (fallback_text (escape_markdown_v2 u)) (Some (L "MarkdownV2"))].
Proof.
  intros Hu Hne Hb Ha.
  unfold deliver, mtry; rewrite Hb.
  assert (Tu : truthy (url r) = true)
    by (rewrite Hu; destruct u; [contradiction|reflexivity]).
  unfold deliver_except, reply_text, bind, emit, ret, raise, lift.
  rewrite Ha, Tu, Hu; cbn [escape_py as_str rbind].
  rewrite <- app_assoc.
  destruct (text_result p (fallback_text (escape_markdown_v2 u)) (Some (L "MarkdownV2")));
    reflexivity.
Qed.

(** A record whose title or size is not a string (the clients store
    [None] when a provider leaves the size out) is never sent as a video:
    escaping it raises [AttributeError] before [reply_video], with nothing
    sent.  The handler then sends the apology with reason "an unknown
    error" and, once that apology is accepted, attempts the fallback
    message with the link. *)
Theorem deliver_non_string_title_or_size p r u tr :
  url r = JStr u -> u <> [] ->
  (forall s, title r <> JStr s) \/ (forall s, size r <> JStr s) ->
  deliver_body p r tr = (tr, Raise AttributeError) /\
  (text_result p (apology_text AttributeError) None = None ->
   fst (deliver p r tr) =
   tr ++ [EText (apology_text AttributeError) None;
          EText (fallback_text (escape_markdown_v2 u)) (Some (L "MarkdownV2"))]) /\
  classify AttributeError = L "an unknown error".
Proof.
  intros Hu Hne Hts.
  assert (Hb : deliver_body p r tr = (tr, Raise AttributeError)).
  { unfold deliver_body, bind, lift, escape_py, rbind, as_str.
    destruct Hts as [N|N].
    - destruct (title r); try reflexivity; exfalso; eapply N; reflexivity.
    - destruct (title r); try reflexivity.
      destruct (size r); try reflexivity; exfalso; eapply N; reflexivity. }
  split; [exact Hb|split; [|reflexivity]].
  intros Ha; apply (deliver_caught p r u AttributeError tr tr); assumption.
Qed.

Lemma deliver_non_string_title_or_size_witness :
  fetch_from_api1 (fun _ => Response 200 (Some body_api1_nosize)) LINK = Ok (Some rec_nosize) /\
  fst (deliver (platform_ok get_nothing) rec_nosize []) =
  [EText (apology_text AttributeError) None;
   EText (fallback_text (escape_markdown_v2 (L "https://cdn.example/a.mp4")))
     (Some (L "MarkdownV2"))].
Proof.
  split; [vm_compute; reflexivity|].
  refine (proj1 (proj2 (deliver_non_string_title_or_size (platform_ok get_nothing)
           rec_nosize (L "https://cdn.example/a.mp4") [] _ _ _)) _);
    [reflexivity|discriminate|right; discriminate|reflexivity].
Defined.

(** ** The provider clients on unexpected JSON *)

(** A JSON body that is not an object (a list, a string, a number, ...)
    makes every client return [None], whatever the status. *)
Theorem clients_non_object_body f api_url :
  In (f, api_url) clients ->
  forall get link st j,
    get (api_url link) = Response st (Some j) -> (forall kvs, j <> JObj kvs) ->
    f get link = Ok None.
Proof.
  simpl; intros [E|[E|[E|[]]]]; injection E as <- <-; intros get link st j Hg Hj;
    unfold fetch_from_api1, fetch_from_api2, fetch_from_api3, client_frame,
      requests_get; rewrite Hg; cbn [rbind fst snd];
    (destruct (raise_for_status st) as [[]|e]; cbn [rbind rtry];
      [|apply client_except_none]);
    (destruct j; [| | | | |exfalso; eapply Hj; reflexivity]; reflexivity).
Qed.

Lemma clients_non_object_body_witness :
  fetch_from_api2 (fun _ => Response 200 (Some (JArr [JS "x"]))) LINK = Ok None.
Proof.
  apply (clients_non_object_body fetch_from_api2 api2_url (or_intror (or_introl eq_refl))
           _ LINK 200%Z (JArr [JS "x"])); [reflexivity|discriminate].
Defined.

(** [fetch_from_api1] scans the list item by item: an item is judged on its
    own, the first item giving a record wins, an item that is not a dict
    raises [AttributeError] (ending the whole client with [None], later
    items unseen), and a dict item never raises. *)
Theorem api1_scan_first_match :
  (forall item rest,
     api1_scan (item :: rest) =
     match api1_scan [item] with Ok None => api1_scan rest | o => o end) /\
  (forall item, (forall kvs, item <> JObj kvs) -> api1_scan [item] = Raise AttributeError) /\
  (forall kvs, exists o, api1_scan [JObj kvs] = Ok o).
Proof.
  split; [|split].
  - intros [| | | | |kvs] rest; try reflexivity.
    cbn [api1_scan]; unfold py_get, py_get_default.
    repeat (first [ destruct (find _ kvs) as [[? ?]|]
                  | destruct (py_eq_str _ _)
                  | destruct (truthy _) ]; cbn [rbind]); reflexivity.
  - intros [| | | | |kvs] H; try reflexivity; exfalso; eapply H; reflexivity.
  - intros kvs; cbn [api1_scan]; unfold py_get, py_get_default.
    repeat (first [ destruct (find _ kvs) as [[? ?]|]
                  | destruct (py_eq_str _ _)
                  | destruct (truthy _) ]; cbn [rbind]); eexists; reflexivity.
Qed.

Lemma api1_scan_first_match_witness :
  api1_scan [JS "ad"] = Raise AttributeError /\
  fetch_from_api1 (fun _ => Response 200 (Some body_api1_ad_first)) LINK = Ok None.
Proof.
  split; [apply (proj1 (proj2 api1_scan_first_match)); discriminate|].
  vm_compute; reflexivity.
Defined.

(** [fetch_from_api3] on a body whose ['status'] is ['✅ Success'] and whose
    extracted-info list is non-empty with a truthy direct link in its first
    entry: when that entry's thumbnails are truthy but not a dict, looking
    up the preferred sizes raises and the client returns [None], direct
    link notwithstanding; when they are a dict (empty or not) or are
    falsy or missing, and the status is not 4xx or 5xx, it returns a record
    with that direct link. *)
Theorem api3_thumbnails_shape get link st data info rest dl th :
  get (api3_url link) = Response st (Some data) ->
  py_get data (L "status") = Ok (JStr K_STATUS_OK) ->
  py_get data K_EXTRACTED = Ok (JArr (info :: rest)) ->
  py_get info K_DIRECT = Ok dl -> truthy dl = true ->
  py_get info K_THUMBS = Ok th ->
  (truthy th = true -> (forall kvs, th <> JObj kvs) ->
   fetch_from_api3 get link = Ok None) /\
  (~ (400 <= st < 600)%Z -> (exists kvs, th = JObj kvs) \/ truthy th = false ->
   exists r, fetch_from_api3 get link = Ok (Some r) /\ url r = dl).
Proof.
  intros Hg Hs He Hd Td Hth.
  assert (Hst : py_eq_str (JStr K_STATUS_OK) K_STATUS_OK = true)
    by (vm_compute; reflexivity).
  assert (Body : api3_body (Some data) =
                 (thumbnail_url <- (if truthy th then pick_thumbnail th else Ok JNull) ;;
                  t <- py_get_default info K_TITLE (JStr (L "Video")) ;;
                  sz <- py_get info K_SIZE ;;
                  Ok (Some {| title := t; url := dl; size := sz;
                              thumbnail := thumbnail_url |}))).
  { unfold api3_body; cbn [response_json rbind].
    rewrite Hs; cbn [rbind]; rewrite Hst, He; cbn [truthy length Nat.eqb negb rbind py_len].
    cbn [Nat.ltb Nat.leb py_index0 rbind]; rewrite Hd; cbn [rbind]; rewrite Td.
    rewrite Hth; cbn [rbind]; reflexivity. }
  unfold fetch_from_api3, client_frame, requests_get; rewrite Hg; cbn [rbind fst snd].
  split.
  - intros Tth Nth.
    destruct (raise_for_status st) as [[]|e]; cbn [rbind rtry]; [|apply client_except_none].
    rewrite Body, Tth.
    destruct th as [| | | | |kvs]; try (exfalso; eapply Nth; reflexivity); reflexivity.
  - intros Nst Hth'.
    unfold raise_for_status.
    replace ((400 <=? st)%Z && (st <? 600)%Z) with false.
    2:{ symmetry; apply andb_false_iff.
        destruct (Z.le_gt_cases 400 st);
          [right; apply Z.ltb_ge | left; apply Z.leb_gt]; lia. }
    cbn [rbind]; rewrite Body.
    destruct info as [| | | | |ikvs]; try discriminate.
    destruct Hth' as [[kvs ->]|Fth].
    + unfold pick_thumbnail, py_get, py_get_default, py_or.
      repeat (first [ destruct (find _ kvs) as [[? ?]|]
                    | destruct (find _ ikvs) as [[? ?]|]
                    | destruct (truthy _) ]; cbn [rbind]);
        eexists; split; reflexivity.
    + rewrite Fth; cbn [rbind]; unfold py_get, py_get_default.
      repeat (first [ destruct (find _ ikvs) as [[? ?]|] ]; cbn [rbind]);
        eexists; split; reflexivity.
Qed.

Lemma api3_thumbnails_shape_witness :
  fetch_from_api3 (fun _ => Response 200 (Some body_api3_thumb_list)) LINK = Ok None.
Proof.
  refine (proj1 (api3_thumbnails_shape (fun _ => Response 200 (Some body_api3_thumb_list))
           LINK 200%Z body_api3_thumb_list info_thumb_list []
           (JS "https://cdn.example/a.mp4") (JArr [JS "https://cdn.example/t.jpg"])
           eq_refl _ _ _ _ _) _ _); try (vm_compute; reflexivity); discriminate.
Defined.

Lemma handler_provider_calls_witness :
  calls_of (fst (handle_terabox_link (platform_ok get_nothing) (L "hello there") [])) = [].
Proof.
  apply (proj2 (handler_provider_calls (platform_ok get_nothing) (L "hello there")));
    vm_compute; reflexivity.
Defined.

(** ** The webhook endpoint: dispatch discipline *)

(** An update is dispatched only after [Update.de_json] succeeded on a
    truthy JSON body of a request declared JSON, and at most one update is
    dispatched per request; an answer with status 200 always comes from a
    dispatch whose processing returned normally, with the body
    [{"status": "ok"}]. *)
Theorem webhook_dispatch_discipline (a : application) (rq : request) :
  (forall u, In (WDispatch u) (fst (flask_dispatch a rq)) ->
     exists j, is_json rq = true /\ json_body rq = Some j /\ truthy j = true /\
               de_json a j = Ok u /\
               fst (flask_dispatch a rq) = [WDeserialize j; WDispatch u]) /\
  (fst (snd (flask_dispatch a rq)) = 200%Z ->
     exists u, In (WDispatch u) (fst (flask_dispatch a rq)) /\
               process_update a u = Ok tt /\ snd (snd (flask_dispatch a rq)) = ACK).
Proof.
  unfold flask_dispatch, telegram_webhook, get_json_force.
  destruct (is_json rq); cbn [negb].
  2:{ split; [intros u []|discriminate]. }
  destruct (json_body rq) as [j|]; cbn [fst snd].
  2:{ split; [intros u []|discriminate]. }
  destruct (truthy j) eqn:Tj; cbn [negb].
  2:{ split; [intros u []|discriminate]. }
  destruct (de_json a j) as [u|e] eqn:Dj; cbn [fst snd].
  - split.
    + intros u' [E|[E|[]]]; [discriminate|injection E as <-].
      exists j; repeat split; auto.
    + destruct (process_update a u) as [[]|e] eqn:Pu; cbn [fst snd].
      * intros _; exists u; repeat split; auto; right; left; reflexivity.
      * destruct e; discriminate.
  - split; [intros u' [E|[]]; discriminate|discriminate].
Qed.

(** ** Webhook registration on import *)

(** Registration happens only when [WEBHOOK_URL] is set and non-empty, and
    only ever for [WEBHOOK_URL + "/webhook"].  With Telegram answering,
    [set_webhook] is called exactly when the bot's webhook differs, the bot
    ends up on [WEBHOOK_URL + "/webhook"], and a second start makes no
    [set_webhook] call.  A failing [get_webhook_info] is swallowed: nothing
    is set and nothing is raised. *)
Theorem module_startup_registration (W : option str) (b : tg_bot) :
  ((W = None \/ W = Some []) -> module_startup W b = ([], b)) /\
  (forall u, In (BSetWebhook u) (fst (module_startup W b)) ->
     exists w, W = Some w /\ u = w ++ L "/webhook") /\
  (forall w, W = Some w -> w <> [] -> info_error b = None -> set_error b = None ->
     current_webhook (snd (module_startup W b)) = w ++ L "/webhook" /\
     (In (BSetWebhook (w ++ L "/webhook")) (fst (module_startup W b)) <->
      current_webhook b <> w ++ L "/webhook") /\
     fst (module_startup W (snd (module_startup W b))) = [BGetWebhookInfo]) /\
  (forall w e, W = Some w -> w <> [] -> info_error b = Some e ->
     module_startup W b = ([BGetWebhookInfo], b)).
Proof.
  assert (Len : forall w : str, w <> [] -> negb (Nat.eqb (length w) 0) = true)
    by (intros [|c w] H; [contradiction|reflexivity]).
  split; [|split; [|split]].
  - intros [->| ->]; reflexivity.
  - destruct W as [w|]; [|intros u []].
    exists w; split; [reflexivity|].
    unfold module_startup in H.
    destruct (negb (Nat.eqb (length w) 0)); [|destruct H].
    unfold set_webhook_on_startup in H.
    destruct (get_webhook_info b); [|destruct H as [E|[]]; discriminate].
    destruct (negb (str_eqb a (w ++ L "/webhook"))); cbn [fst] in H;
      [|destruct H as [E|[]]; discriminate].
    destruct H as [E|[E|[]]]; [discriminate|injection E as <-; reflexivity].
  - intros w -> Hw Hi Hs; unfold module_startup; rewrite (Len w Hw).
    unfold set_webhook_on_startup, get_webhook_info; rewrite Hi.
    destruct (str_eqb (current_webhook b) (w ++ L "/webhook")) eqn:E; cbn [negb fst snd].
    + apply str_eqb_eq in E.
      split; [exact E|split].
      * split; [intros [F|[]]; discriminate|intro N; contradiction].
      * rewrite Hi, E, (proj2 (str_eqb_eq _ _) eq_refl); reflexivity.
    + unfold set_webhook; rewrite Hs; cbn [current_webhook info_error].
      split; [reflexivity|split].
      * split; [intros _ F; rewrite F, (proj2 (str_eqb_eq _ _) eq_refl) in E; discriminate|].
        intros _; right; left; reflexivity.
      * cbn [current_webhook]; rewrite Hi, (proj2 (str_eqb_eq _ _) eq_refl); reflexivity.
  - intros w e -> Hw Hi; unfold module_startup; rewrite (Len w Hw).
    unfold set_webhook_on_startup, get_webhook_info; rewrite Hi; reflexivity.
Qed.

Lemma module_startup_registration_witness :
  module_startup (Some (L "https://bot.example")) bot_elsewhere =
  ([BGetWebhookInfo; BSetWebhook (L "https://bot.example/webhook")],
   {| current_webhook := L "https://bot.example/webhook"; info_error := None;
      set_error := None |}) /\
  fst (module_startup (Some (L "https://bot.example"))
         (snd (module_startup (Some (L "https://bot.example")) bot_elsewhere)))
  = [BGetWebhookInfo].
Proof.
  split; [vm_compute; reflexivity|].
  apply (proj2 (proj2 (proj1 (proj2 (proj2
           (module_startup_registration (Some (L "https://bot.example")) bot_elsewhere)))
           (L "https://bot.example") eq_refl ltac:(discriminate) eq_refl eq_refl))).
Defined.

Lemma webhook_dispatch_discipline_witness :
  exists u, In (WDispatch u)
              (fst (flask_dispatch app_ok {| is_json := true; json_body := Some UPDATE |})) /\
            process_update app_ok u = Ok tt /\
            snd (snd (flask_dispatch app_ok {| is_json := true; json_body := Some UPDATE |}))
            = ACK.
Proof.
  apply (proj2 (webhook_dispatch_discipline app_ok
                  {| is_json := true; json_body := Some UPDATE |})); reflexivity.
Defined.
